(** * gmail-deepclean: the inbox ingestion and aggregation engine

    A shallow embedding of the inbox processor of package [api] (types
    [EmailMetadata], [EmailStats], [InboxProcessor], [ProcessorRegistry] and
    their methods), of [ParseToken] and of the four handlers of
    [api/inbox_handlers.go], followed by the properties the specification
    states about them.

    Conventions.
    - A Go [string] is a sequence of bytes: Rocq's [string] of [ascii].
    - Go's [int64], and [int] on a 64-bit platform, are 64-bit two's
      complement integers: [Z] with the wrap-around of every addition
      written out ([GoInt.wrap64]).
    - A Go [map[string]T] is a [gmap string T]; reading a missing key gives
      the zero value ([getZ]).
    - The Gmail service and the packages [time] and [encoding/json] are not
      part of the repository: the answers of the service are a script given
      to the ingestion loop, [time.Parse], [Time.Format], [json.Unmarshal]
      and [gmail.NewService] are parameters of the model.
    - Goroutines of one page interleave at their critical sections: a
      scheduler orders the sections of a page.
    - A launched loop runs beside the handlers: the moves it makes before
      a handler reads the processor are an argument of the handler or a
      [background] step between two handlers. *)

From Stdlib Require Import ZArith Lia Ascii String List Permutation Sorted.
From stdpp Require Import gmap strings list fin_maps.

Local Open Scope string_scope.
Local Open Scope list_scope.
Local Open Scope Z_scope.

(** * Part I: the model *)

(** ** Machine integers *)

Module GoInt.

Definition minInt : Z := - 2 ^ 63.
Definition maxInt : Z := 2 ^ 63 - 1.

(** The value a 64-bit signed register holds after computing [z]. *)
Definition wrap64 (z : Z) : Z := (z + 2 ^ 63) mod 2 ^ 64 - 2 ^ 63.

Definition add (a b : Z) : Z := wrap64 (a + b).

Definition inRange (z : Z) : Prop := minInt <= z <= maxInt.

End GoInt.

(** ** Go maps with integer values *)

(** [m[k]] for a key that may be missing: the zero value. *)
Definition getZ (m : gmap string Z) (k : string) : Z := default 0 (m !! k).

(** [m[k] += d] (and [m[k]++] for [d = 1]). *)
Definition bump (k : string) (d : Z) (m : gmap string Z) : gmap string Z :=
  <[k := GoInt.add (getZ m k) d]> m.

(** How many times [k] occurs in [l]. *)
Definition occ (k : string) (l : list string) : nat :=
  count_occ string_dec l k.

(** ** Header values: [extractEmailAddress] *)

Definition byteIs (c : ascii) (o : option ascii) : bool :=
  match o with
  | Some d => if ascii_dec d c then true else false
  | None => false
  end.

(** [for i := 0; i < len(header); i++ { if header[i] == '<' { start = i + 1; break } }]
    with [start] initially [0]; [fuel] counts the iterations that remain. *)
Fixpoint scanStart (header : string) (fuel i : nat) : nat :=
  match fuel with
  | O => O
  | S fuel' =>
      if byteIs "<" (String.get i header) then S i
      else scanStart header fuel' (S i)
  end.

(** [for i := len(header) - 1; i >= 0; i-- { if header[i] == '>' { end = i; break } }]
    with [end] initially [len(header)]; the argument is [i + 1]. *)
Fixpoint scanEnd (header : string) (k : nat) : nat :=
  match k with
  | O => String.length header
  | S i => if byteIs ">" (String.get i header) then i else scanEnd header i
  end.

Definition extractEmailAddress (header : string) : string :=
  let start := scanStart header (String.length header) 0 in
  let end_ := scanEnd header (String.length header) in
  if (start <? end_)%nat then substring start (end_ - start) header
  else header.

(** The extraction as the specification words it: the text strictly between
    the first ['<'] and the last ['>'] when both occur, otherwise the whole
    value with surrounding white space removed. *)
Module AsSpecified.

Fixpoint firstIndex (c : ascii) (s : string) : option nat :=
  match s with
  | EmptyString => None
  | String d s' =>
      if ascii_dec d c then Some O else option_map S (firstIndex c s')
  end.

Fixpoint lastIndex (c : ascii) (s : string) : option nat :=
  match s with
  | EmptyString => None
  | String d s' =>
      match lastIndex c s' with
      | Some j => Some (S j)
      | None => if ascii_dec d c then Some O else None
      end
  end.

Definition isSpace (c : ascii) : bool :=
  match c with
  | " "%char | "009"%char | "010"%char | "013"%char => true
  | _ => false
  end.

Fixpoint trimLeft (s : string) : string :=
  match s with
  | String c s' => if isSpace c then trimLeft s' else s
  | EmptyString => EmptyString
  end.

Fixpoint trimRight (s : string) : string :=
  match s with
  | EmptyString => EmptyString
  | String c s' =>
      match trimRight s' with
      | EmptyString => if isSpace c then EmptyString else String c EmptyString
      | t => String c t
      end
  end.

Definition trim (s : string) : string := trimRight (trimLeft s).

Definition address (header : string) : string :=
  match firstIndex "<" header, lastIndex ">" header with
  | Some i, Some j => substring (S i) (j - S i) header
  | _, _ => trim header
  end.

End AsSpecified.

(** ** Instants of package [time] *)

(** A [time.Time]: seconds and nanoseconds since January 1, year 1,
    00:00:00 UTC, and the offset of its location. *)
Record Time := { t_sec : Z; t_nsec : Z; t_offset : Z }.

(** [time.Time{}] *)
Definition zeroTime : Time := {| t_sec := 0; t_nsec := 0; t_offset := 0 |}.

(** [t.IsZero()]: [t.sec() == 0 && t.nsec() == 0]. *)
Definition IsZero (t : Time) : bool := (t_sec t =? 0) && (t_nsec t =? 0).

Definition RFC1123 : string := "Mon, 02 Jan 2006 15:04:05 MST".
Definition RFC1123Z : string := "Mon, 02 Jan 2006 15:04:05 -0700".

(** ** What the Gmail API returns *)

Module gmail.

Record MessagePartHeader := { Name : string; Value : string }.

Record MessagePart := { Headers : list MessagePartHeader }.

(** With [Format("full")] the payload is always present. *)
Record Message := {
  Id : string;
  ThreadId : string;
  LabelIds : list string;
  Snippet : string;
  SizeEstimate : Z;
  Payload : MessagePart
}.

End gmail.

(** One entry of a listing page: the identifier listed, and what
    [Users.Messages.Get(user, id).Format("full").Do()] answers for it
    ([None] when the call returns an error). *)
Definition unit_ : Type := (string * option gmail.Message)%type.

(** The answer to one [Users.Messages.List] call. *)
Inductive ListResponse :=
| ListFailed
| ListPage (Messages : list unit_) (NextPageToken : string).

(** A page that is followed by another one. *)
Definition continuing (r : ListResponse) : Prop :=
  match r with
  | ListFailed => False
  | ListPage _ next => next ≠ ""
  end.


(** ** [EmailMetadata], [EmailStats], [InboxProcessor] *)

Record EmailMetadata := {
  ID : string;
  ThreadID : string;
  From : string;
  To : list string;
  Subject : string;
  Date : Time;
  Snippet : string;
  LabelIDs : list string;
  SizeEstimate : Z
}.

Record EmailStats := {
  FromCount : gmap string Z;
  ToCount : gmap string Z;
  FromSize : gmap string Z;
  DateCount : gmap string Z;
  TotalEmails : Z
}.

Definition NewEmailStats : EmailStats :=
  {| FromCount := ∅; ToCount := ∅; FromSize := ∅; DateCount := ∅;
     TotalEmails := 0 |}.

(** [oauth2.Token], without its expiry. *)
Record Token := {
  AccessToken : string;
  TokenType : string;
  RefreshToken : string
}.

(** The [service] handle is the remote mailbox; its answers are the script
    given to [processInbox]. *)
Record InboxProcessor := {
  token : Token;
  emails : list EmailMetadata;
  stats : EmailStats;
  pageToken : string;
  isProcessing : bool
}.

Definition set_emails (l : list EmailMetadata) (p : InboxProcessor) :=
  {| token := token p; emails := l; stats := stats p;
     pageToken := pageToken p; isProcessing := isProcessing p |}.

Definition set_stats (s : EmailStats) (p : InboxProcessor) :=
  {| token := token p; emails := emails p; stats := s;
     pageToken := pageToken p; isProcessing := isProcessing p |}.

Definition set_isProcessing (b : bool) (p : InboxProcessor) :=
  {| token := token p; emails := emails p; stats := stats p;
     pageToken := pageToken p; isProcessing := b |}.

Definition set_TotalEmails (n : Z) (s : EmailStats) :=
  {| FromCount := FromCount s; ToCount := ToCount s; FromSize := FromSize s;
     DateCount := DateCount s; TotalEmails := n |}.

(** The struct literal of [NewInboxProcessor]. *)
Definition freshProcessor (tok : Token) : InboxProcessor :=
  {| token := tok; emails := []; stats := NewEmailStats; pageToken := "";
     isProcessing := false |}.

(** [StartProcessing]: the error returned ([None] for [nil]), the processor
    afterwards, and whether [go p.processInbox()] was executed. *)
Definition StartProcessing (p : InboxProcessor)
  : option string * InboxProcessor * bool :=
  if isProcessing p then (Some "processing already in progress", p, false)
  else (None, set_isProcessing true p, true).

Definition GetStats (p : InboxProcessor) : EmailStats := stats p.

(** [GetProgress]: the values under ["totalEmails"] and ["isProcessing"]. *)
Definition GetProgress (p : InboxProcessor) : Z * bool :=
  (TotalEmails (stats p), isProcessing p).

(** [GetTopSenders] works on a slice of [emailCount] structs. *)
Record emailCount := { Email : string; Count : Z; Size : Z }.

(** ** The registry and the processors it points to *)

(** Processors are shared through pointers: [heap] holds the allocated
    processors, an address is an index into it. [goroutines] has one entry
    per executed [go p.processInbox()], the address of [p]; the loops
    listed there write to their processors as [loopActs] says. *)
Record World := {
  heap : list InboxProcessor;
  processors : gmap string nat;
  goroutines : list nat
}.

Definition emptyWorld : World :=
  {| heap := []; processors := ∅; goroutines := [] |}.

Definition Register (userID : string) (processor : nat) (w : World) : World :=
  {| heap := heap w; processors := <[userID := processor]> (processors w);
     goroutines := goroutines w |}.

Definition Get (userID : string) (w : World) : option nat :=
  processors w !! userID.

Definition Remove (userID : string) (w : World) : World :=
  {| heap := heap w; processors := delete userID (processors w);
     goroutines := goroutines w |}.

(** [&InboxProcessor{...}]: a new cell, whose address is returned. *)
Definition alloc (p : InboxProcessor) (w : World) : nat * World :=
  (length (heap w),
   {| heap := heap w ++ [p]; processors := processors w;
      goroutines := goroutines w |}).

Definition store (a : nat) (p : InboxProcessor) (w : World) : World :=
  {| heap := <[a := p]> (heap w); processors := processors w;
     goroutines := goroutines w |}.

(** [go p.processInbox()] for the processor at [a]: from now on its loop
    makes its moves beside the handlers ([loopActs], [loopMoves]). *)
Definition spawn (a : nat) (w : World) : World :=
  {| heap := heap w; processors := processors w;
     goroutines := goroutines w ++ [a] |}.

(** Every registered address is allocated. *)
Definition wfWorld (w : World) : Prop :=
  ∀ userID a, processors w !! userID = Some a → (a < length (heap w))%nat.

(** What a handler writes: an [http.Error], one of the JSON bodies, or
    nothing because the handler panicked. *)
Inductive Response :=
| HttpError (status : Z)
| ProgressJSON (totalEmails : Z) (isProcessing : bool)
| TopSendersJSON (senders : list emailCount)
| StatsJSON (s : EmailStats)
| Panic.

Record Request := { Authorization : string }.

(** [s[:n]], which panics when [n > len(s)]. *)
Definition slicePrefix (s : string) (n : nat) : option string :=
  if (n <=? String.length s)%nat then Some (substring 0 n s) else None.

(** ** Sorting and cutting the senders *)

(** [if senders[i].Count < senders[j].Count { senders[i], senders[j] = senders[j], senders[i] }];
    the loops below only call it with both indices in range. *)
Definition compareSwap (i j : nat) (senders : list emailCount)
  : list emailCount :=
  match senders !! i, senders !! j with
  | Some a, Some b =>
      if Count a <? Count b then <[i := b]> (<[j := a]> senders) else senders
  | _, _ => senders
  end.

(** [for j := i + 1; j < len(senders); j++]: [fuel] iterations from [j]. *)
Fixpoint sortInner (i j fuel : nat) (senders : list emailCount)
  : list emailCount :=
  match fuel with
  | O => senders
  | S fuel' => sortInner i (S j) fuel' (compareSwap i j senders)
  end.

(** [for i := 0; i < len(senders); i++]: [fuel] iterations from [i]. *)
Fixpoint sortOuter (i fuel : nat) (senders : list emailCount)
  : list emailCount :=
  match fuel with
  | O => senders
  | S fuel' =>
      sortOuter (S i) fuel'
        (sortInner i (S i) (length senders - S i) senders)
  end.

Definition sortByCount (senders : list emailCount) : list emailCount :=
  sortOuter 0 (length senders) senders.

(** [iter] is the sequence of pairs that [range p.stats.FromCount] yields;
    Go leaves its order unspecified. The result is [None] when
    [senders[:n]] panics. The final conversion of each struct to a map with
    keys ["email"], ["count"], ["size"] is left out. *)
Definition GetTopSenders (iter : list (string * Z)) (p : InboxProcessor)
  (n : Z) : option (list emailCount) :=
  let senders :=
    map (fun ec => {| Email := ec.1; Count := ec.2;
                      Size := getZ (FromSize (stats p)) ec.1 |}) iter in
  let senders := sortByCount senders in
  let n := if Z.of_nat (length senders) <? n
           then Z.of_nat (length senders) else n in
  if n <? 0 then None else Some (take (Z.to_nat n) senders).

(** The orders in which [range] may yield the entries of a map. *)
Definition rangeOf (m : gmap string Z) (iter : list (string * Z)) : Prop :=
  Permutation iter (map_to_list m).

(** ** Critical sections and schedules *)

(** A [processMessage] goroutine that fetched its message enters two
    critical sections, one under [p.mu] and one under [p.stats.mu]. *)
Inductive critical :=
| AppendEmail (metadata : EmailMetadata)
| UpdateStats (metadata : EmailMetadata).

(** The goroutines of one page run in parallel: a scheduler picks, for page
    number [k], the order in which their critical sections are entered. *)
Definition scheduler : Type := nat → list critical → list critical.

Definition fairScheduler (sched : scheduler) : Prop :=
  ∀ k l, Permutation (sched k l) l.

(** Each goroutine runs to its end before the next one starts. *)
Definition inOrder : scheduler := fun _ l => l.

(** The metadata appended, and the metadata recorded into the statistics,
    by a sequence of critical sections. *)
Definition appended (l : list critical) : list EmailMetadata :=
  flat_map (fun c => match c with AppendEmail m => [m] | _ => [] end) l.

Definition recorded (l : list critical) : list EmailMetadata :=
  flat_map (fun c => match c with UpdateStats m => [m] | _ => [] end) l.

(** What [processInbox] has done when it exits or waits for an answer:
    the processor, the page tokens of the listing requests it sent, the
    critical sections its goroutines entered, and whether it has left the
    loop and cleared the flag. *)
Record Run := {
  proc : InboxProcessor;
  requests : list string;
  sections : list critical;
  exited : bool
}.

(** Two processors that differ at most in the total counter. *)
Definition sameButTotal (p q : InboxProcessor) : Prop :=
  token p = token q ∧ emails p = emails q ∧ pageToken p = pageToken q
  ∧ isProcessing p = isProcessing q
  ∧ FromCount (stats p) = FromCount (stats q)
  ∧ ToCount (stats p) = ToCount (stats q)
  ∧ FromSize (stats p) = FromSize (stats q)
  ∧ DateCount (stats p) = DateCount (stats q).

(** ** The writes of a launched loop *)

(** The steps by which [processInbox] and its goroutines write to the
    processor: a goroutine of the page in flight enters one of its critical
    sections; the loop adds the length of the page once the goroutines of
    the page are done; the loop clears the running flag when it ends. *)
Inductive move :=
| Enters (c : critical)
| PageDone (msgs : list unit_)
| Leaves.

(** ** Vocabulary for the further properties *)

(** Whether the byte [c] occurs in [s]. *)
Fixpoint hasByte (c : ascii) (s : string) : bool :=
  match s with
  | EmptyString => false
  | String d s' => if ascii_dec d c then true else hasByte c s'
  end.

(** The values of the headers called [name], in the order of the headers. *)
Definition headerValues (name : string)
  (headers : list gmail.MessagePartHeader) : list string :=
  map gmail.Value
    (List.filter (fun h => String.eqb (gmail.Name h) name) headers).

(** A response after which the loop stops. *)
Definition terminal (r : ListResponse) : bool :=
  match r with
  | ListFailed => true
  | ListPage _ next => String.eqb next EmptyString
  end.

(** The next-page tokens of the pages read before the loop stops. *)
Fixpoint cursors (script : list ListResponse) : list string :=
  match script with
  | ListPage _ next :: script' =>
      if String.eqb next EmptyString then [] else next :: cursors script'
  | _ => []
  end.

Definition isFetched (u : unit_) : bool :=
  match u.2 with Some _ => true | None => false end.

(** How many messages are listed in the pages the loop reads, and how many
    of them are fetched without error. *)
Fixpoint listed (script : list ListResponse) : nat :=
  match script with
  | ListPage msgs next :: script' =>
      (length msgs
       + if String.eqb next EmptyString then 0 else listed script')%nat
  | _ => O
  end.

Fixpoint fetched (script : list ListResponse) : nat :=
  match script with
  | ListPage msgs next :: script' =>
      (length (List.filter isFetched msgs)
       + if String.eqb next EmptyString then 0 else fetched script')%nat
  | _ => O
  end.

(** A slice whose counts never go up. *)
Definition nonIncreasing (s : list emailCount) : Prop :=
  ∀ i k a b, (i < k)%nat → s !! i = Some a → s !! k = Some b →
             Count b ≤ Count a.

(** ** A small mailbox, for the examples *)

Module Demo.

(** Monday January 2, 2006, 15:04:05, seven hours west of UTC. *)
Definition instant : Time :=
  {| t_sec := 63271836245; t_nsec := 0; t_offset := -25200 |}.

(** A stand-in for [time.Parse] that knows two spellings of [instant]. *)
Definition time_Parse (layout value : string) : option Time :=
  if String.eqb layout RFC1123Z
     && String.eqb value "Mon, 02 Jan 2006 15:04:05 -0700"
  then Some instant
  else if String.eqb layout "Mon, 2 Jan 2006 15:04:05 -0700"
          && String.eqb value "Mon, 2 Jan 2006 15:04:05 -0700"
  then Some instant
  else None.

(** A stand-in for [t.Format]. *)
Definition time_Format (t : Time) (layout : string) : string :=
  if IsZero t then "0001-01-01" else "2006-01-02".

(** A stand-in for [json.Unmarshal]: the text is the access token. *)
Definition json_Unmarshal (s : string) : option Token :=
  Some {| AccessToken := s; TokenType := "Bearer"; RefreshToken := "" |}.

Definition gmail_NewService (tok : Token) : bool := true.

Definition header (name value : string) : gmail.MessagePartHeader :=
  {| gmail.Name := name; gmail.Value := value |}.

Definition m1 : gmail.Message :=
  {| gmail.Id := "m1"; gmail.ThreadId := "t1"; gmail.LabelIds := ["INBOX"];
     gmail.Snippet := "first"; gmail.SizeEstimate := 1200;
     gmail.Payload :=
       {| gmail.Headers :=
            [ header "From" "Ann <ann@example.com>";
              header "To" "bob@example.com";
              header "Subject" "one";
              header "Date" "Mon, 02 Jan 2006 15:04:05 -0700" ] |} |}.

Definition m2 : gmail.Message :=
  {| gmail.Id := "m2"; gmail.ThreadId := "t2"; gmail.LabelIds := ["INBOX"];
     gmail.Snippet := "second"; gmail.SizeEstimate := 800;
     gmail.Payload :=
       {| gmail.Headers :=
            [ header "From" "ann@example.com";
              header "To" "Bob <bob@example.com>";
              header "To" "carl@example.com";
              header "Date" "Mon, 2 Jan 2006 15:04:05 -0700" ] |} |}.

Definition m3 : gmail.Message :=
  {| gmail.Id := "m3"; gmail.ThreadId := "t3"; gmail.LabelIds := [];
     gmail.Snippet := "third"; gmail.SizeEstimate := 50;
     gmail.Payload :=
       {| gmail.Headers :=
            [ header "From" "Carl <carl@example.com>";
              header "To" "bob@example.com";
              header "Date" "yesterday" ] |} |}.

(** Three messages on two pages. *)
Definition mailbox : list ListResponse :=
  [ ListPage [("m1", Some m1); ("m2", Some m2)] "p2";
    ListPage [("m3", Some m3)] "" ].

(** The same mailbox when the fetch of [m2] fails. *)
Definition flaky : list ListResponse :=
  [ ListPage [("m1", Some m1); ("m2", None)] "p2";
    ListPage [("m3", Some m3)] "" ].

(** The critical sections of a page are entered in reverse order. *)
Definition backwards : scheduler := fun _ l => rev l.

Definition tok : Token :=
  {| AccessToken := "ya29.a0AfH6SMBx"; TokenType := "Bearer";
     RefreshToken := "" |}.

Definition started : InboxProcessor :=
  set_isProcessing true (freshProcessor tok).

Definition request : Request :=
  {| Authorization := "Bearer ya29.a0AfH6SMBx" |}.

Definition shortRequest : Request := {| Authorization := "Bearer abc" |}.

Definition metadata : EmailMetadata :=
  {| ID := "m2"; ThreadID := "t2"; From := "ann@example.com";
     To := ["bob@example.com"; "carl@example.com"; "bob@example.com"];
     Subject := ""; Date := instant; Snippet := "second";
     LabelIDs := ["INBOX"]; SizeEstimate := 800 |}.

End Demo.

(** ** More inputs, for the further properties *)

Module Demo2.

(** A second token that begins with the ten bytes of [Demo.tok]. *)
Definition tok : Token :=
  {| AccessToken := "ya29.a0AfH_second"; TokenType := "Bearer";
     RefreshToken := EmptyString |}.

Definition request : Request :=
  {| Authorization := "Bearer ya29.a0AfH_second" |}.

Definition noHeader : Request := {| Authorization := EmptyString |}.

(** A service that cannot be created. *)
Definition gmail_NewService (tok : Token) : bool := false.

Definition senders : list emailCount :=
  [ {| Email := "ann@example.com"; Count := 2; Size := 2000 |};
    {| Email := "bob@example.com"; Count := 2; Size := 10 |};
    {| Email := "carl@example.com"; Count := 1; Size := 50 |} ].

(** A message with two [Date] headers, the second of which does not
    parse. *)
Definition twoDates : gmail.Message :=
  {| gmail.Id := "m4"; gmail.ThreadId := "t4"; gmail.LabelIds := [];
     gmail.Snippet := "fourth"; gmail.SizeEstimate := 10;
     gmail.Payload :=
       {| gmail.Headers :=
            [ Demo.header "From" "ann@example.com";
              Demo.header "Date" "Mon, 2 Jan 2006 15:04:05 -0700";
              Demo.header "Date" "yesterday" ] |} |}.

(** A processor whose run has ended, and a registry that holds it. *)
Definition idle : InboxProcessor :=
  {| token := Demo.tok; emails := [];
     stats :=
       {| FromCount :=
            <["ann@example.com" := 2]> (<["carl@example.com" := 1]> ∅);
          ToCount := <["bob@example.com" := 3]> ∅;
          FromSize :=
            <["ann@example.com" := 2000]> (<["carl@example.com" := 50]> ∅);
          DateCount := <["2006-01-02" := 2]> ∅;
          TotalEmails := 3 |};
     pageToken := EmptyString; isProcessing := false |}.

Definition world : World :=
  {| heap := [idle]; processors := <["ya29.a0AfH" := 0%nat]> ∅;
     goroutines := [0%nat] |}.

End Demo2.

(** ** Inputs at the edge of the timestamps and of the counters *)

Module Demo3.

(** A stand-in for [time.Parse] that reads the first instant of year 1. *)
Definition time_Parse (layout value : string) : option Time :=
  if String.eqb layout RFC1123Z
     && String.eqb value "Mon, 01 Jan 0001 00:00:00 +0000"
  then Some zeroTime
  else None.

Definition firstInstant : gmail.Message :=
  {| gmail.Id := "m5"; gmail.ThreadId := "t5"; gmail.LabelIds := [];
     gmail.Snippet := "fifth"; gmail.SizeEstimate := 10;
     gmail.Payload :=
       {| gmail.Headers :=
            [ Demo.header "From" "z@x.org";
              Demo.header "Date" "Mon, 01 Jan 0001 00:00:00 +0000" ] |} |}.

(** A record with the largest size estimate an [int64] holds. *)
Definition huge : EmailMetadata :=
  {| ID := "m6"; ThreadID := "t6"; From := "big@example.com"; To := [];
     Subject := EmptyString; Date := zeroTime; Snippet := EmptyString;
     LabelIDs := []; SizeEstimate := 2 ^ 63 - 1 |}.

End Demo3.

Section Engine.

(** [time.Parse(layout, value)]: [None] when it returns an error. *)
Variable time_Parse : string → string → option Time.
(** [t.Format(layout)] *)
Variable time_Format : Time → string → string.
(** [json.Unmarshal([]byte(s), &token)]: [None] when it returns an error. *)
Variable json_Unmarshal : string → option Token.
(** Whether [gmail.NewService] succeeds for a token. *)
Variable gmail_NewService : Token → bool.

(** *** Extraction *)

Definition formats : list string :=
  [ RFC1123Z; RFC1123;
    "Mon, 2 Jan 2006 15:04:05 -0700";
    "Mon, 2 Jan 2006 15:04:05 -0700 (MST)" ].

(** [for _, format := range formats { if t, err := time.Parse(format, v); err == nil { metadata.Date = t; break } }] *)
Fixpoint tryFormats (fs : list string) (value : string) (date : Time)
  : Time :=
  match fs with
  | [] => date
  | format :: fs' =>
      match time_Parse format value with
      | Some t => t
      | None => tryFormats fs' value date
      end
  end.

(** The [case "Date"] branch: the new value of [metadata.Date]. *)
Definition parseDate (value : string) (date : Time) : Time :=
  match time_Parse RFC1123Z value with
  | Some t => t
  | None => tryFormats formats value date
  end.

(** One iteration of [for _, header := range msg.Payload.Headers]. *)
Definition headerStep (metadata : EmailMetadata)
  (header : gmail.MessagePartHeader) : EmailMetadata :=
  let name := gmail.Name header in
  let value := gmail.Value header in
  if String.eqb name "From" then
    {| ID := ID metadata; ThreadID := ThreadID metadata;
       From := extractEmailAddress value; To := To metadata;
       Subject := Subject metadata; Date := Date metadata;
       Snippet := Snippet metadata; LabelIDs := LabelIDs metadata;
       SizeEstimate := SizeEstimate metadata |}
  else if String.eqb name "To" then
    {| ID := ID metadata; ThreadID := ThreadID metadata;
       From := From metadata;
       To := To metadata ++ [extractEmailAddress value];
       Subject := Subject metadata; Date := Date metadata;
       Snippet := Snippet metadata; LabelIDs := LabelIDs metadata;
       SizeEstimate := SizeEstimate metadata |}
  else if String.eqb name "Subject" then
    {| ID := ID metadata; ThreadID := ThreadID metadata;
       From := From metadata; To := To metadata;
       Subject := value; Date := Date metadata;
       Snippet := Snippet metadata; LabelIDs := LabelIDs metadata;
       SizeEstimate := SizeEstimate metadata |}
  else if String.eqb name "Date" then
    {| ID := ID metadata; ThreadID := ThreadID metadata;
       From := From metadata; To := To metadata;
       Subject := Subject metadata;
       Date := parseDate value (Date metadata);
       Snippet := Snippet metadata; LabelIDs := LabelIDs metadata;
       SizeEstimate := SizeEstimate metadata |}
  else metadata.

(** The metadata [processMessage] builds from a fetched message. *)
Definition extractMetadata (msg : gmail.Message) : EmailMetadata :=
  foldl headerStep
    {| ID := gmail.Id msg; ThreadID := gmail.ThreadId msg;
       From := ""; To := []; Subject := ""; Date := zeroTime;
       Snippet := gmail.Snippet msg; LabelIDs := gmail.LabelIds msg;
       SizeEstimate := gmail.SizeEstimate msg |}
    (gmail.Headers (gmail.Payload msg)).

(** *** Aggregation *)

(** [p.emails = append(p.emails, metadata)] under [p.mu]. *)
Definition appendEmail (metadata : EmailMetadata) (p : InboxProcessor)
  : InboxProcessor :=
  set_emails (emails p ++ [metadata]) p.

(** The statements of [processMessage] between [p.stats.mu.Lock()] and
    [p.stats.mu.Unlock()]. *)
Definition updateStats (metadata : EmailMetadata) (s : EmailStats)
  : EmailStats :=
  {| FromCount := bump (From metadata) 1 (FromCount s);
     FromSize := bump (From metadata) (SizeEstimate metadata) (FromSize s);
     ToCount := foldl (fun m to => bump to 1 m) (ToCount s) (To metadata);
     DateCount :=
       if IsZero (Date metadata) then DateCount s
       else bump (time_Format (Date metadata) "2006-01-02") 1 (DateCount s);
     TotalEmails := TotalEmails s |}.

(** [fetched] is the answer to the [Get] call for the message. *)
Definition processMessage (fetched : option gmail.Message)
  (p : InboxProcessor) : InboxProcessor :=
  match fetched with
  | None => p
  | Some msg =>
      let metadata := extractMetadata msg in
      let p := appendEmail metadata p in
      set_stats (updateStats metadata (stats p)) p
  end.

Definition enter (c : critical) (p : InboxProcessor) : InboxProcessor :=
  match c with
  | AppendEmail metadata => appendEmail metadata p
  | UpdateStats metadata => set_stats (updateStats metadata (stats p)) p
  end.

Definition criticalSections (fetched : option gmail.Message)
  : list critical :=
  match fetched with
  | None => []
  | Some msg =>
      let metadata := extractMetadata msg in
      [AppendEmail metadata; UpdateStats metadata]
  end.

Definition runSections (l : list critical) (p : InboxProcessor)
  : InboxProcessor :=
  foldl (fun p c => enter c p) p l.

(** The critical sections of the goroutines launched for one page. *)
Definition pageSections (msgs : list unit_) : list critical :=
  flat_map (fun u => criticalSections u.2) msgs.

(** [p.stats.TotalEmails += len(resp.Messages)] *)
Definition addTotal (msgs : list unit_) (p : InboxProcessor)
  : InboxProcessor :=
  set_stats
    (set_TotalEmails
       (GoInt.add (TotalEmails (stats p)) (Z.of_nat (length msgs)))
       (stats p)) p.

(** *** The ingestion loop *)

(** The [for] loop of [processInbox] and the statements after it.
    [script] holds the answers of the listing calls, in order; the loop
    waits when it runs out. [k] numbers the pages, [reqs] collects the
    page token of each request sent, [log] the critical sections
    entered. *)
Fixpoint processInboxFrom (sched : scheduler) (script : list ListResponse)
  (k : nat) (pageToken : string) (reqs : list string) (log : list critical)
  (p : InboxProcessor) : Run :=
  match script with
  | [] =>
      {| proc := p; requests := reqs ++ [pageToken]; sections := log;
         exited := false |}
  | ListFailed :: _ =>
      {| proc := set_isProcessing false p;
         requests := reqs ++ [pageToken]; sections := log;
         exited := true |}
  | ListPage msgs next :: script' =>
      let entered := sched k (pageSections msgs) in
      let p := runSections entered p in
      let p := addTotal msgs p in
      if String.eqb next "" then
        {| proc := set_isProcessing false p;
           requests := reqs ++ [pageToken]; sections := log ++ entered;
           exited := true |}
      else
        processInboxFrom sched script' (S k) next (reqs ++ [pageToken])
          (log ++ entered) p
  end.

Definition processInbox (sched : scheduler) (script : list ListResponse)
  (p : InboxProcessor) : Run :=
  processInboxFrom sched script 0 "" [] [] p.

(** *** The handlers *)

Definition ParseToken (r : Request) : string + Token :=
  let tokenStr := Authorization r in
  if String.eqb tokenStr "" then inl "authorization header not provided"
  else
    let tokenStr :=
      if (7 <? String.length tokenStr)%nat
         && String.eqb (substring 0 7 tokenStr) "Bearer "
      then substring 7 (String.length tokenStr - 7) tokenStr
      else tokenStr in
    match json_Unmarshal tokenStr with
    | None => inl "invalid token format"
    | Some tok => inr tok
    end.

Definition NewInboxProcessor (tok : Token) : option InboxProcessor :=
  if gmail_NewService tok then Some (freshProcessor tok) else None.

(** [userID := token.AccessToken[:10]] *)
Definition userIDOf (tok : Token) : option string :=
  slicePrefix (AccessToken tok) 10.

Definition progressOf (a : nat) (w : World) : Response :=
  match heap w !! a with
  | Some p => ProgressJSON (GetProgress p).1 (GetProgress p).2
  | None => Panic
  end.

(** *** Loops that run beside the handlers *)

Definition applyMove (m : move) (p : InboxProcessor) : InboxProcessor :=
  match m with
  | Enters c => enter c p
  | PageDone msgs => addTotal msgs p
  | Leaves => set_isProcessing false p
  end.

(** The processor after its loop has made the moves [ms]. *)
Definition advance (ms : list move) (p : InboxProcessor) : InboxProcessor :=
  foldl (fun p m => applyMove m p) p ms.

(** The moves of the loop that reads the answers [script], from page
    number [k] on, in their order. At any moment the loop has made a
    beginning of them. *)
Fixpoint loopMoves (sched : scheduler) (script : list ListResponse) (k : nat)
  : list move :=
  match script with
  | [] => []
  | ListFailed :: _ => [Leaves]
  | ListPage msgs next :: script' =>
      map Enters (sched k (pageSections msgs))
      ++ PageDone msgs
         :: (if String.eqb next "" then [Leaves]
             else loopMoves sched script' (S k))
  end.

(** The loop launched on the processor at [a] makes the move [m]; an
    address on which no loop was launched is left alone. *)
Definition loopActs (a : nat) (m : move) (w : World) : World :=
  if bool_decide (a ∈ goroutines w) then
    match heap w !! a with
    | Some p => store a (applyMove m p) w
    | None => w
    end
  else w.

(** What the launched loops do while no handler looks: a sequence of
    moves, each by the loop of some processor. *)
Definition background (acts : list (nat * move)) (w : World) : World :=
  foldl (fun w am => loopActs am.1 am.2 w) w acts.

(** [HandleStartProcessingInbox] after a [Registry.Get] that found
    nothing: create, register and start a processor, then read its
    progress. The loop is launched before the progress is read: [ran] are
    the moves it makes in between. *)
Definition startCreate (ran : list move) (userID : string) (tok : Token)
  (w : World) : Response * World :=
  match NewInboxProcessor tok with
  | None => (HttpError 500, w)
  | Some p =>
      let (a, w) := alloc p w in
      let w := Register userID a w in
      match StartProcessing p with
      | (Some _, p, _) => (HttpError 500, store a p w)
      | (None, p, launched) =>
          let w := store a p w in
          let w := if launched then spawn a w else w in
          let w := background (map (pair a) ran) w in
          (progressOf a w, w)
      end
  end.

(** [HandleStartProcessingInbox] from [Registry.Get] on, when no other
    request changes the registry between its [Get] and its [Register]. *)
Definition startFor (ran : list move) (userID : string) (tok : Token)
  (w : World) : Response * World :=
  match Get userID w with
  | Some a => (progressOf a w, w)
  | None => startCreate ran userID tok w
  end.

Definition statusFor (userID : string) (w : World) : Response * World :=
  match Get userID w with
  | None => (HttpError 404, w)
  | Some a => (progressOf a w, w)
  end.

(** [range] yields the entries of the map [m] in the order [iter m]. *)
Definition topSendersFor (iter : gmap string Z → list (string * Z))
  (userID : string) (w : World) : Response * World :=
  match Get userID w with
  | None => (HttpError 404, w)
  | Some a =>
      match heap w !! a with
      | None => (Panic, w)
      | Some p =>
          match GetTopSenders (iter (FromCount (stats p))) p 20 with
          | Some l => (TopSendersJSON l, w)
          | None => (Panic, w)
          end
      end
  end.

Definition statsFor (userID : string) (w : World) : Response * World :=
  match Get userID w with
  | None => (HttpError 404, w)
  | Some a =>
      match heap w !! a with
      | None => (Panic, w)
      | Some p => (StatsJSON (GetStats p), w)
      end
  end.

(** The common head of the four handlers: parse the token, derive the
    identity key, go on with [body]. *)
Definition withUserID (body : string → Token → World → Response * World)
  (r : Request) (w : World) : Response * World :=
  match ParseToken r with
  | inl _ => (HttpError 401, w)
  | inr tok =>
      match userIDOf tok with
      | None => (Panic, w)
      | Some userID => body userID tok w
      end
  end.

Definition HandleStartProcessingInbox (ran : list move)
  : Request → World → Response * World :=
  withUserID (startFor ran).

Definition HandleGetInboxStatus : Request → World → Response * World :=
  withUserID (fun userID _ => statusFor userID).

Definition HandleGetTopSenders (iter : gmap string Z → list (string * Z))
  : Request → World → Response * World :=
  withUserID (fun userID _ => topSendersFor iter userID).

Definition HandleGetEmailStats : Request → World → Response * World :=
  withUserID (fun userID _ => statsFor userID).

(** The world after a processor was created for [tok], registered under
    [userID] and started, and after its loop has made the moves [ran]. *)
Definition launchedWorld (ran : list move) (userID : string) (tok : Token)
  (w : World) : World :=
  {| heap :=
       heap w ++ [advance ran (set_isProcessing true (freshProcessor tok))];
     processors := <[userID := length (heap w)]> (processors w);
     goroutines := goroutines w ++ [length (heap w)] |}.

(** * Part II: properties *)

(** ** Machine integers *)

Lemma wrap64_id z : GoInt.inRange z → GoInt.wrap64 z = z.
Proof.
  unfold GoInt.inRange, GoInt.minInt, GoInt.maxInt, GoInt.wrap64.
  intros H. rewrite Z.mod_small; lia.
Qed.

Lemma wrap64_add_l a b :
  GoInt.wrap64 (GoInt.wrap64 a + b) = GoInt.wrap64 (a + b).
Proof.
  unfold GoInt.wrap64.
  replace ((a + 2 ^ 63) mod 2 ^ 64 - 2 ^ 63 + b + 2 ^ 63)
    with ((a + 2 ^ 63) mod 2 ^ 64 + b) by lia.
  rewrite Zplus_mod_idemp_l. f_equal. f_equal. lia.
Qed.

Lemma add_in_range a b : GoInt.inRange (a + b) → GoInt.add a b = a + b.
Proof. apply wrap64_id. Qed.


(** ** Scanning a header value *)

Lemma byteIs_true c o : byteIs c o = true ↔ o = Some c.
Proof.
  unfold byteIs. destruct o as [d|]; [|split; discriminate].
  destruct (ascii_dec d c); split; intros H; try congruence.
Qed.

Lemma byteIs_false c o : byteIs c o = false ↔ o ≠ Some c.
Proof.
  rewrite <- byteIs_true. destruct (byteIs c o); split; congruence.
Qed.

Lemma get_beyond s : ∀ n, (String.length s ≤ n)%nat → String.get n s = None.
Proof.
  induction s as [|c s IH]; intros n Hn; [reflexivity|].
  destruct n as [|n]; simpl in *; [lia|]. apply IH. lia.
Qed.

Lemma scanStart_spec header : ∀ fuel i,
  (i + fuel = String.length header)%nat →
  (∀ j, (j < i)%nat → String.get j header ≠ Some "<"%char) →
  (scanStart header fuel i = O ∧
     ∀ j, String.get j header ≠ Some "<"%char)
  ∨ (∃ k, scanStart header fuel i = S k
        ∧ String.get k header = Some "<"%char
        ∧ ∀ j, (j < k)%nat → String.get j header ≠ Some "<"%char).
Proof.
  induction fuel as [|fuel IH]; intros i Hlen Hbefore; simpl.
  - left. split; [reflexivity|]. intros j.
    destruct (Nat.lt_ge_cases j i) as [Hj|Hj]; [by apply Hbefore|].
    rewrite get_beyond; [discriminate | lia].
  - destruct (byteIs "<" (String.get i header)) eqn:Hb.
    + right. exists i. apply byteIs_true in Hb. by repeat split.
    + apply IH; [lia|]. intros j Hj.
      destruct (Nat.eq_dec j i) as [->|Hne]; [by apply byteIs_false|].
      apply Hbefore. lia.
Qed.

Lemma scanEnd_spec header : ∀ k,
  (k ≤ String.length header)%nat →
  (∀ j, (k ≤ j)%nat → String.get j header ≠ Some ">"%char) →
  (scanEnd header k = String.length header ∧
     ∀ j, String.get j header ≠ Some ">"%char)
  ∨ (String.get (scanEnd header k) header = Some ">"%char
     ∧ ∀ j, (scanEnd header k < j)%nat →
            String.get j header ≠ Some ">"%char).
Proof.
  induction k as [|k IH]; intros Hlen Hafter; simpl.
  - left. split; [reflexivity|]. intros j. apply Hafter. lia.
  - destruct (byteIs ">" (String.get k header)) eqn:Hb.
    + right. apply byteIs_true in Hb. split; [done|].
      intros j Hj. apply Hafter. lia.
    + apply IH; [lia|]. intros j Hj.
      destruct (Nat.eq_dec j k) as [->|Hne]; [by apply byteIs_false|].
      apply Hafter. lia.
Qed.

(** C4 (as amended): [extractEmailAddress] returns the bytes from just
    after the first ['<'] (from the start of the value when it has no
    ['<']) up to the last ['>'] (up to the end of the value when it has no
    ['>']) whenever that range is not empty, and the whole value otherwise;
    nothing is trimmed. ["Name <a@b.com>"] gives ["a@b.com"], and the bare
    ["a@b.com"] is returned as it is. *)
Theorem extractEmailAddress_range :
  (∀ header, ∃ start end_ : nat,
     ((start = O ∧ ∀ j, String.get j header ≠ Some "<"%char)
      ∨ (∃ i, start = S i ∧ String.get i header = Some "<"%char
            ∧ ∀ j, (j < i)%nat → String.get j header ≠ Some "<"%char))
     ∧ ((end_ = String.length header
         ∧ ∀ j, String.get j header ≠ Some ">"%char)
        ∨ (String.get end_ header = Some ">"%char
           ∧ ∀ j, (end_ < j)%nat → String.get j header ≠ Some ">"%char))
     ∧ extractEmailAddress header =
         if (start <? end_)%nat then substring start (end_ - start) header
         else header)
  ∧ extractEmailAddress "Name <a@b.com>" = "a@b.com"
  ∧ extractEmailAddress "a@b.com" = "a@b.com"
  ∧ extractEmailAddress " a@b.com " = " a@b.com ".
Proof.
  split; [|by repeat split].
  intros header.
  exists (scanStart header (String.length header) 0),
         (scanEnd header (String.length header)).
  split; [|split; [|reflexivity]].
  - apply scanStart_spec; [lia | intros j Hj; lia].
  - apply scanEnd_spec; [lia|]. intros j Hj.
    rewrite get_beyond; [discriminate | done].
Qed.

(** ** Counters in maps *)

Lemma lookup_bump k d (m : gmap string Z) j :
  bump k d m !! j =
    if decide (k = j) then Some (GoInt.add (getZ m k) d) else m !! j.
Proof. unfold bump. apply lookup_insert. Qed.

Lemma getZ_bump k d (m : gmap string Z) j :
  getZ (bump k d m) j =
    if decide (k = j) then GoInt.add (getZ m k) d else getZ m j.
Proof. unfold getZ at 1. rewrite lookup_bump. by case_decide. Qed.




Lemma occ_cons k a l :
  occ k (a :: l) = if decide (a = k) then S (occ k l) else occ k l.
Proof.
  unfold occ. simpl. destruct (string_dec a k); by case_decide.
Qed.

Lemma occ_zero k l : occ k l = O ↔ k ∉ l.
Proof.
  unfold occ. rewrite <- count_occ_not_In. by rewrite list_elem_of_In.
Qed.

(** After the loop over the recipients: an entry that is no recipient is
    untouched, the entry of a recipient has grown, in 64-bit arithmetic,
    by the number of times it occurs. *)
Lemma getZ_bumps l : ∀ (m : gmap string Z) j,
  getZ (foldl (fun m to => bump to 1 m) m l) j =
    if decide (occ j l = O) then getZ m j
    else GoInt.wrap64 (getZ m j + Z.of_nat (occ j l)).
Proof.
  induction l as [|a l IH]; intros m j; [done|].
  rewrite occ_cons. cbn [foldl]. rewrite IH, getZ_bump.
  destruct (decide (a = j)) as [->|Hne].
  - rewrite (decide_False (P := S (occ j l) = O)) by lia.
    unfold GoInt.add. case_decide as H0.
    + rewrite H0. f_equal; lia.
    + rewrite wrap64_add_l. f_equal; lia.
  - done.
Qed.

Lemma getZ_bumps_exact l (m : gmap string Z) j :
  (j ∈ l → GoInt.inRange (getZ m j + Z.of_nat (occ j l))) →
  getZ (foldl (fun m to => bump to 1 m) m l) j =
    getZ m j + Z.of_nat (occ j l).
Proof.
  intros H. rewrite getZ_bumps. case_decide as H0.
  - rewrite H0. lia.
  - apply wrap64_id, H. apply dec_stable. by rewrite <- occ_zero.
Qed.

(** ** One record of the statistics *)


(** C5 (as amended): one record fed to the accumulator adds one to the
    count of its
    sender and to no other sender count, adds its size estimate to the
    byte total of its sender and to no other, adds to the count of each of
    its distinct recipients (as many times as the recipient is listed) and
    to no other recipient count, and adds one to the count of its calendar
    day, and to no other, exactly when its timestamp is set (its [Date]
    is not the zero time, which is what the code tests); a record without
    timestamp contributes to senders and recipients all the same. The
    counters are 64-bit: the sums are assumed to fit. *)
Theorem updateStats_contribution (metadata : EmailMetadata)
  (s : EmailStats) :
  let s' := updateStats metadata s in
  let day := time_Format (Date metadata) "2006-01-02" in
  GoInt.inRange (getZ (FromCount s) (From metadata) + 1) →
  GoInt.inRange
    (getZ (FromSize s) (From metadata) + SizeEstimate metadata) →
  Forall (fun to =>
            GoInt.inRange
              (getZ (ToCount s) to + Z.of_nat (occ to (To metadata))))
         (To metadata) →
  (IsZero (Date metadata) = false →
   GoInt.inRange (getZ (DateCount s) day + 1)) →
  (∀ k, getZ (FromCount s') k =
          getZ (FromCount s) k
          + if decide (k = From metadata) then 1 else 0)
  ∧ (∀ k, getZ (FromSize s') k =
            getZ (FromSize s) k
            + if decide (k = From metadata) then SizeEstimate metadata
              else 0)
  ∧ (∀ k, getZ (ToCount s') k =
            getZ (ToCount s) k + Z.of_nat (occ k (To metadata)))
  ∧ (∀ k, (0 < occ k (To metadata))%nat ↔ k ∈ To metadata)
  ∧ (∀ k, getZ (DateCount s') k =
            getZ (DateCount s) k
            + if IsZero (Date metadata) then 0
              else if decide (k = day) then 1 else 0)
  ∧ TotalEmails s' = TotalEmails s.
Proof.
  intros s' day Hcount Hsize Hto Hday. subst s'. unfold updateStats; simpl.
  repeat split.
  - intros k. rewrite getZ_bump.
    destruct (decide (From metadata = k)) as [<-|Hne].
    + rewrite decide_True by done. by apply add_in_range.
    + rewrite decide_False by congruence. lia.
  - intros k. rewrite getZ_bump.
    destruct (decide (From metadata = k)) as [<-|Hne].
    + rewrite decide_True by done. by apply add_in_range.
    + rewrite decide_False by congruence. lia.
  - intros k. apply getZ_bumps_exact. intros Hin.
    rewrite Forall_forall in Hto. by apply Hto.
  - intros Hpos. apply dec_stable. rewrite <- occ_zero. lia.
  - intros Hin.
    destruct (occ k (To metadata)) eqn:E; [|lia].
    apply occ_zero in E. contradiction.
  - intros k. destruct (IsZero (Date metadata)) eqn:Hz; [lia|].
    rewrite getZ_bump. fold day.
    destruct (decide (day = k)) as [<-|Hne].
    + rewrite decide_True by done. apply add_in_range. by apply Hday.
    + rewrite decide_False by congruence. lia.
Qed.

(** ** What a sequence of critical sections does *)

Lemma runSections_app l1 l2 p :
  runSections (l1 ++ l2) p = runSections l2 (runSections l1 p).
Proof. apply foldl_app. Qed.

Lemma emails_runSections l : ∀ p,
  emails (runSections l p) = emails p ++ appended l.
Proof.
  induction l as [|c l IH]; intros p; simpl.
  - by rewrite app_nil_r.
  - fold (runSections l (enter c p)). rewrite IH.
    destruct c; simpl; [by rewrite <- app_assoc | done].
Qed.

Lemma stats_runSections l : ∀ p,
  stats (runSections l p) =
    foldl (fun s m => updateStats m s) (stats p) (recorded l).
Proof.
  induction l as [|c l IH]; intros p; simpl; [done|].
  fold (runSections l (enter c p)). rewrite IH. by destruct c.
Qed.

Lemma frame_runSections l : ∀ p,
  token (runSections l p) = token p
  ∧ pageToken (runSections l p) = pageToken p
  ∧ isProcessing (runSections l p) = isProcessing p.
Proof.
  induction l as [|c l IH]; intros p; simpl; [done|].
  fold (runSections l (enter c p)).
  destruct (IH (enter c p)) as (-> & -> & ->). by destruct c.
Qed.

Lemma recorded_app l1 l2 : recorded (l1 ++ l2) = recorded l1 ++ recorded l2.
Proof. apply flat_map_app. Qed.

Lemma recorded_perm l l' :
  Permutation l l' → Permutation (recorded l) (recorded l').
Proof. apply Permutation_flat_map. Qed.


Lemma records_total ms : ∀ s t,
  foldl (fun s m => updateStats m s) (set_TotalEmails t s) ms =
    set_TotalEmails t (foldl (fun s m => updateStats m s) s ms).
Proof.
  induction ms as [|m ms IH]; intros s t; simpl; [done|].
  by rewrite <- IH.
Qed.

Lemma TotalEmails_records ms : ∀ s,
  TotalEmails (foldl (fun s m => updateStats m s) s ms) = TotalEmails s.
Proof. induction ms as [|m ms IH]; intros s; simpl; [done|]. by rewrite IH. Qed.


Lemma pageSections_app msgs1 msgs2 :
  pageSections (msgs1 ++ msgs2) = pageSections msgs1 ++ pageSections msgs2.
Proof. apply flat_map_app. Qed.


Lemma processMessage_sections fetched p :
  processMessage fetched p = runSections (criticalSections fetched) p.
Proof. by destruct fetched. Qed.

(** ** The loop over the pages *)

(** After a prefix of pages that each announce a successor the loop is
    at its next listing request. *)
Lemma processInboxFrom_prefix sched pre :
  Forall continuing pre →
  ∀ k pt reqs log p, ∃ pt' reqs' log' p',
    length reqs' = (length reqs + length pre)%nat
    ∧ processInboxFrom sched pre k pt reqs log p =
        {| proc := p'; requests := reqs' ++ [pt']; sections := log';
           exited := false |}
    ∧ ∀ rest,
        processInboxFrom sched (pre ++ rest) k pt reqs log p =
          processInboxFrom sched rest (k + length pre) pt' reqs' log' p'.
Proof.
  induction 1 as [|r pre Hr _ IH]; intros k pt reqs log p.
  - exists pt, reqs, log, p. simpl. repeat split; [lia|].
    intros rest. by rewrite Nat.add_0_r.
  - destruct r as [|msgs next]; [done|]. simpl in Hr.
    apply String.eqb_neq in Hr. simpl. rewrite Hr.
    edestruct IH as (pt' & reqs' & log' & p' & Hlen & Hrun & Hrest).
    exists pt', reqs', log', p'. split; [|split; [exact Hrun|]].
    + rewrite Hlen, length_app. simpl. lia.
    + intros rest. rewrite Hrest. f_equal. lia.
Qed.




(** ** Processors that differ in the total only *)

Lemma enter_sameButTotal c p q :
  sameButTotal p q → sameButTotal (enter c p) (enter c q).
Proof.
  intros (Ht & He & Hp & Hi & H1 & H2 & H3 & H4).
  destruct c; unfold sameButTotal; simpl;
    rewrite ?Ht, ?He, ?Hp, ?Hi, ?H1, ?H2, ?H3, ?H4; done.
Qed.

Lemma runSections_sameButTotal l : ∀ p q,
  sameButTotal p q → sameButTotal (runSections l p) (runSections l q).
Proof.
  induction l as [|c l IH]; intros p q H; simpl; [done|].
  apply IH. by apply enter_sameButTotal.
Qed.

Lemma addTotal_sameButTotal msgs msgs' p q :
  sameButTotal p q → sameButTotal (addTotal msgs p) (addTotal msgs' q).
Proof. intros H. exact H. Qed.

Lemma set_isProcessing_sameButTotal b p q :
  sameButTotal p q →
  sameButTotal (set_isProcessing b p) (set_isProcessing b q).
Proof. unfold sameButTotal; simpl. tauto. Qed.

Lemma processInboxFrom_sameButTotal sched script : ∀ k pt reqs log p q,
  sameButTotal p q →
  let r := processInboxFrom sched script k pt reqs log p in
  let r' := processInboxFrom sched script k pt reqs log q in
  sameButTotal (proc r) (proc r') ∧ requests r = requests r'
  ∧ sections r = sections r' ∧ exited r = exited r'.
Proof.
  induction script as [|[|msgs next] script IH];
    intros k pt reqs log p q H; simpl.
  - done.
  - split; [|done]. by apply set_isProcessing_sameButTotal.
  - pose proof (addTotal_sameButTotal msgs msgs _ _
                  (runSections_sameButTotal
                     (sched k (pageSections msgs)) _ _ H)) as H'.
    destruct (String.eqb next ""); simpl; [|by apply IH].
    split; [|done]. by apply set_isProcessing_sameButTotal.
Qed.

Lemma sameButTotal_refl p : sameButTotal p p.
Proof. by repeat split. Qed.

Lemma skip_failed_from sched id msgs1 msgs2 next post pre :
  ∀ k pt reqs log p,
    let r :=
      processInboxFrom sched
        (pre ++ ListPage (msgs1 ++ (id, None) :: msgs2) next :: post)
        k pt reqs log p in
    let r' :=
      processInboxFrom sched
        (pre ++ ListPage (msgs1 ++ msgs2) next :: post) k pt reqs log p in
    sameButTotal (proc r) (proc r') ∧ requests r = requests r'
    ∧ sections r = sections r' ∧ exited r = exited r'.
Proof.
  induction pre as [|[|msgs0 next0] pre IH]; intros k pt reqs log p.
  - cbn [app processInboxFrom].
    replace (pageSections (msgs1 ++ (id, None) :: msgs2))
      with (pageSections (msgs1 ++ msgs2))
      by (by rewrite !pageSections_app).
    set (p1 := runSections (sched k (pageSections (msgs1 ++ msgs2))) p).
    pose proof (addTotal_sameButTotal (msgs1 ++ (id, None) :: msgs2)
                  (msgs1 ++ msgs2) p1 p1 (sameButTotal_refl p1)) as H.
    destruct (String.eqb next "").
    + split; [|done]. by apply set_isProcessing_sameButTotal.
    + assert (∀ q q', sameButTotal q q' →
                let r := processInboxFrom sched post (S k) next
                           (reqs ++ [pt])
                           (log ++ sched k (pageSections (msgs1 ++ msgs2)))
                           q in
                let r' := processInboxFrom sched post (S k) next
                            (reqs ++ [pt])
                            (log ++ sched k (pageSections (msgs1 ++ msgs2)))
                            q' in
                sameButTotal (proc r) (proc r') ∧ requests r = requests r'
                ∧ sections r = sections r' ∧ exited r = exited r') as Hgo
        by (intros; by apply processInboxFrom_sameButTotal).
      by apply Hgo.
  - simpl. split; [apply sameButTotal_refl | done].
  - cbn [app processInboxFrom]. destruct (String.eqb next0 "").
    + split; [apply sameButTotal_refl | done].
    + apply IH.
Qed.

(** ** The claims about the ingestion loop *)

(** C6: when a listing call fails, the loop is left at once: that request
    is the last one of the run whatever the service would have answered
    afterwards, the running flag is cleared, and the statistics and the
    collected metadata are those the run had reached when it sent the
    request. *)
Theorem listing_failure_aborts_run sched pre post p :
  Forall continuing pre →
  let before := processInbox sched pre p in
  let r := processInbox sched (pre ++ ListFailed :: post) p in
  exited before = false
  ∧ exited r = true
  ∧ isProcessing (proc r) = false
  ∧ stats (proc r) = stats (proc before)
  ∧ emails (proc r) = emails (proc before)
  ∧ sections r = sections before
  ∧ requests r = requests before
  ∧ length (requests r) = S (length pre).
Proof.
  intros Hpre before r. subst before r. unfold processInbox.
  destruct (processInboxFrom_prefix sched pre Hpre 0%nat "" [] [] p)
    as (pt' & reqs' & log' & p' & Hlen & Hrun & Hrest).
  rewrite Hrest, Hrun. simpl. repeat split.
  rewrite length_app, Hlen. simpl. lia.
Qed.

(** C8: a page whose next-page token is empty is the last one: its
    goroutines run, its length is added to the total, the running flag is
    cleared, and the request that fetched it is the last listing request
    of the run. *)
Theorem empty_next_token_ends_run sched pre msgs post p :
  Forall continuing pre →
  let before := processInbox sched pre p in
  let r := processInbox sched (pre ++ ListPage msgs "" :: post) p in
  let entered := sched (length pre) (pageSections msgs) in
  exited r = true
  ∧ isProcessing (proc r) = false
  ∧ proc r =
      set_isProcessing false
        (addTotal msgs (runSections entered (proc before)))
  ∧ sections r = sections before ++ entered
  ∧ requests r = requests before
  ∧ length (requests r) = S (length pre).
Proof.
  intros Hpre before r entered. subst before r entered.
  unfold processInbox.
  destruct (processInboxFrom_prefix sched pre Hpre 0%nat "" [] [] p)
    as (pt' & reqs' & log' & p' & Hlen & Hrun & Hrest).
  rewrite Hrest, Hrun. simpl. repeat split.
  rewrite length_app, Hlen. simpl. lia.
Qed.

(** C7: a message whose fetch fails is skipped: [processMessage] leaves
    the processor as it was, enters no critical section, and a run in
    which that message is listed ends like the run in which it is not:
    same metadata collected, same sender, recipient, size and day entries,
    same requests, same flag. *)
Theorem failed_fetch_is_skipped :
  (∀ p, processMessage None p = p)
  ∧ criticalSections None = []
  ∧ ∀ sched pre id msgs1 msgs2 next post p,
      let r :=
        processInbox sched
          (pre ++ ListPage (msgs1 ++ (id, None) :: msgs2) next :: post) p in
      let r' :=
        processInbox sched
          (pre ++ ListPage (msgs1 ++ msgs2) next :: post) p in
      sameButTotal (proc r) (proc r') ∧ requests r = requests r'
      ∧ sections r = sections r' ∧ exited r = exited r'.
Proof.
  split; [done|]. split; [done|]. intros. apply skip_failed_from.
Qed.

(** What one record operation does to the entries of its sender, of its
    recipients and of its day, in 64-bit arithmetic. *)
Lemma updateStats_bumps metadata s :
  let s' := updateStats metadata s in
  let day := time_Format (Date metadata) "2006-01-02" in
  getZ (FromCount s') (From metadata) =
    GoInt.add (getZ (FromCount s) (From metadata)) 1
  ∧ getZ (FromSize s') (From metadata) =
      GoInt.add (getZ (FromSize s) (From metadata)) (SizeEstimate metadata)
  ∧ (∀ to, to ∈ To metadata →
       getZ (ToCount s') to =
         GoInt.wrap64
           (getZ (ToCount s) to + Z.of_nat (occ to (To metadata))))
  ∧ (IsZero (Date metadata) = false →
     getZ (DateCount s') day = GoInt.add (getZ (DateCount s) day) 1)
  ∧ (IsZero (Date metadata) = true → DateCount s' = DateCount s).
Proof.
  unfold updateStats; simpl. repeat split.
  - rewrite getZ_bump. by rewrite decide_True.
  - rewrite getZ_bump. by rewrite decide_True.
  - intros to Hin. rewrite getZ_bumps.
    rewrite decide_False; [done|].
    intros H0. by apply occ_zero in H0.
  - intros ->. rewrite getZ_bump. by rewrite decide_True.
  - by intros ->.
Qed.


(** ** Dates *)

Lemma tryFormats_first value date format post t : ∀ pre,
  Forall (fun f => time_Parse f value = None) pre →
  time_Parse format value = Some t →
  tryFormats (pre ++ format :: post) value date = t.
Proof.
  induction pre as [|f pre IH]; intros Hpre Hf; simpl.
  - by rewrite Hf.
  - inversion Hpre as [|? ? Hnone Hpre']; subst. rewrite Hnone. by apply IH.
Qed.

Lemma tryFormats_none value date : ∀ fs,
  Forall (fun f => time_Parse f value = None) fs →
  tryFormats fs value date = date.
Proof.
  induction 1 as [|f fs Hnone _ IH]; simpl; [done|]. by rewrite Hnone.
Qed.

Lemma parseDate_none value date :
  Forall (fun f => time_Parse f value = None) formats →
  parseDate value date = date.
Proof.
  intros Hall. unfold parseDate.
  inversion Hall as [|? ? Hz _]; subst. rewrite Hz.
  by apply tryFormats_none.
Qed.

Lemma headerStep_Date_kept metadata header :
  (gmail.Name header = "Date" →
   Forall (fun f => time_Parse f (gmail.Value header) = None) formats) →
  Date (headerStep metadata header) = Date metadata.
Proof.
  intros H. unfold headerStep.
  destruct (String.eqb (gmail.Name header) "From"); [done|].
  destruct (String.eqb (gmail.Name header) "To"); [done|].
  destruct (String.eqb (gmail.Name header) "Subject"); [done|].
  destruct (String.eqb (gmail.Name header) "Date") eqn:E; [|done].
  simpl. apply parseDate_none, H. by apply String.eqb_eq.
Qed.

Lemma foldl_headerStep_Date_kept headers : ∀ metadata,
  Forall (fun h =>
            gmail.Name h = "Date" →
            Forall (fun f => time_Parse f (gmail.Value h) = None) formats)
         headers →
  Date (foldl headerStep metadata headers) = Date metadata.
Proof.
  induction headers as [|h headers IH]; intros metadata Hall; [done|].
  inversion Hall as [|? ? Hh Hrest]; subst. simpl.
  rewrite IH by done. by apply headerStep_Date_kept.
Qed.

Lemma parseDate_first value date pre format post t :
  formats = pre ++ format :: post →
  Forall (fun f => time_Parse f value = None) pre →
  time_Parse format value = Some t →
  parseDate value date = t.
Proof.
  intros Hsplit Hpre Hf. unfold parseDate.
  destruct (time_Parse RFC1123Z value) as [t0|] eqn:Hz.
  - destruct pre as [|f pre]; injection Hsplit as <- _; [congruence|].
    inversion Hpre as [|? ? Hnone _]; subst. congruence.
  - rewrite Hsplit. by apply tryFormats_first.
Qed.

(** The timestamp after the headers [hs1 ++ h :: hs2], when [h] is a
    [Date] header that parses and no [Date] header of [hs2] does. *)
Lemma foldl_headerStep_Date_last metadata hs1 h hs2 pre format post t :
  gmail.Name h = "Date" →
  formats = pre ++ format :: post →
  Forall (fun f => time_Parse f (gmail.Value h) = None) pre →
  time_Parse format (gmail.Value h) = Some t →
  Forall (fun h' =>
            gmail.Name h' = "Date" →
            Forall (fun f => time_Parse f (gmail.Value h') = None) formats)
         hs2 →
  Date (foldl headerStep metadata (hs1 ++ h :: hs2)) = t.
Proof.
  intros Hname Hsplit Hpre Hf Hlater.
  rewrite foldl_app. cbn [foldl].
  rewrite foldl_headerStep_Date_kept by done.
  unfold headerStep. rewrite Hname. simpl.
  by eapply parseDate_first.
Qed.

(** C9: the value of a Date header is tried against the formats in their
    order and the first one that parses gives the timestamp; when none
    parses the timestamp is left as it was, so that a message none of
    whose Date headers parses has the zero timestamp, adds nothing to the
    day counts, and is counted for its sender and its recipients. A
    message with a Date header that parses, and none after it that does,
    gets the timestamp of the first format that parses that header, and
    its record adds one to the count of that day unless the timestamp is
    the zero time. *)
Theorem date_formats_in_order :
  (∀ value date pre format post t,
     formats = pre ++ format :: post →
     Forall (fun f => time_Parse f value = None) pre →
     time_Parse format value = Some t →
     parseDate value date = t)
  ∧ (∀ value date,
       Forall (fun f => time_Parse f value = None) formats →
       parseDate value date = date)
  ∧ (∀ msg s,
       Forall (fun h =>
                 gmail.Name h = "Date" →
                 Forall (fun f => time_Parse f (gmail.Value h) = None)
                        formats)
              (gmail.Headers (gmail.Payload msg)) →
       let metadata := extractMetadata msg in
       let s' := updateStats metadata s in
       Date metadata = zeroTime
       ∧ DateCount s' = DateCount s
       ∧ getZ (FromCount s') (From metadata) =
           GoInt.add (getZ (FromCount s) (From metadata)) 1
       ∧ getZ (FromSize s') (From metadata) =
           GoInt.add (getZ (FromSize s) (From metadata))
             (SizeEstimate metadata)
       ∧ ∀ to, to ∈ To metadata →
           getZ (ToCount s') to =
             GoInt.wrap64
               (getZ (ToCount s) to + Z.of_nat (occ to (To metadata))))
  ∧ (∀ msg s hs1 h hs2 pre format post t,
       gmail.Headers (gmail.Payload msg) = hs1 ++ h :: hs2 →
       gmail.Name h = "Date" →
       formats = pre ++ format :: post →
       Forall (fun f => time_Parse f (gmail.Value h) = None) pre →
       time_Parse format (gmail.Value h) = Some t →
       Forall (fun h' =>
                 gmail.Name h' = "Date" →
                 Forall (fun f => time_Parse f (gmail.Value h') = None)
                        formats)
              hs2 →
       let metadata := extractMetadata msg in
       let s' := updateStats metadata s in
       let day := time_Format t "2006-01-02" in
       Date metadata = t
       ∧ (IsZero t = false →
          getZ (DateCount s') day = GoInt.add (getZ (DateCount s) day) 1)
       ∧ (IsZero t = true → DateCount s' = DateCount s)).
Proof.
  split; [|split; [|split]].
  - intros value date pre format post t Hsplit Hpre Hf.
    unfold parseDate. destruct (time_Parse RFC1123Z value) as [t0|] eqn:Hz.
    + destruct pre as [|f pre].
      * injection Hsplit as <- _. congruence.
      * injection Hsplit as <- _.
        inversion Hpre as [|? ? Hnone _]; subst. congruence.
    + rewrite Hsplit. by apply tryFormats_first.
  - apply parseDate_none.
  - intros msg s Hall metadata s'.
    assert (Date metadata = zeroTime) as Hd
      by (subst metadata; unfold extractMetadata;
          by rewrite foldl_headerStep_Date_kept).
    destruct (updateStats_bumps metadata s) as (H1 & H2 & H3 & _ & H5).
    repeat split; try done. apply H5. by rewrite Hd.
  - intros msg s hs1 h hs2 pre format post t Hhs Hname Hsplit Hpre Hf Hlater
      metadata s' day.
    assert (Date metadata = t) as Hd.
    { subst metadata. unfold extractMetadata. rewrite Hhs.
      by eapply foldl_headerStep_Date_last. }
    destruct (updateStats_bumps metadata s) as (_ & _ & _ & H4 & H5).
    rewrite Hd in H4, H5. by repeat split.
Qed.

(** ** Starting a run *)

Lemma heap_alloc_store (h : list InboxProcessor) p q :
  <[length h := q]> (h ++ [p]) !! length h = Some q.
Proof. apply list_lookup_insert_eq. rewrite length_app. simpl. lia. Qed.

(** ** Loops beside the handlers *)

Lemma applyMove_token m p : token (applyMove m p) = token p.
Proof. by destruct m as [[?|?]| |]. Qed.

Lemma advance_token ms : ∀ p, token (advance ms p) = token p.
Proof.
  induction ms as [|m ms IH]; intros p; simpl; [done|].
  fold (advance ms (applyMove m p)). rewrite IH. apply applyMove_token.
Qed.

Lemma loopActs_frame a m w :
  processors (loopActs a m w) = processors w
  ∧ goroutines (loopActs a m w) = goroutines w
  ∧ length (heap (loopActs a m w)) = length (heap w).
Proof.
  unfold loopActs. case_bool_decide; [|done].
  destruct (heap w !! a); [|done]. simpl. by rewrite length_insert.
Qed.

Lemma background_frame acts : ∀ w,
  processors (background acts w) = processors w
  ∧ goroutines (background acts w) = goroutines w
  ∧ length (heap (background acts w)) = length (heap w).
Proof.
  induction acts as [|[a m] acts IH]; intros w; simpl; [done|].
  fold (background acts (loopActs a m w)).
  destruct (IH (loopActs a m w)) as (-> & -> & ->). apply loopActs_frame.
Qed.

Lemma loopActs_token a m w b p :
  heap w !! b = Some p →
  ∃ p', heap (loopActs a m w) !! b = Some p' ∧ token p' = token p.
Proof.
  intros Hb. unfold loopActs. case_bool_decide; [|eauto].
  destruct (heap w !! a) as [q|] eqn:Ha; [|eauto]. simpl.
  destruct (decide (a = b)) as [->|Hne].
  - rewrite list_lookup_insert_eq by (by eapply lookup_lt_Some).
    eexists; split; [done|]. rewrite applyMove_token. congruence.
  - rewrite list_lookup_insert_ne by done. eauto.
Qed.

(** Whatever the loops do, every processor stays where it is and keeps
    its token. *)
Lemma background_token acts : ∀ w b p,
  heap w !! b = Some p →
  ∃ p', heap (background acts w) !! b = Some p' ∧ token p' = token p.
Proof.
  induction acts as [|[a m] acts IH]; intros w b p Hb; simpl; [eauto|].
  fold (background acts (loopActs a m w)).
  destruct (loopActs_token a m w b p Hb) as (p1 & Hp1 & Ht1).
  destruct (IH _ b p1 Hp1) as (p2 & Hp2 & Ht2).
  exists p2. split; [done | congruence].
Qed.

(** The moves of one loop advance its own processor. *)
Lemma background_own a ms : ∀ w p,
  a ∈ goroutines w → heap w !! a = Some p →
  background (map (pair a) ms) w = store a (advance ms p) w.
Proof.
  induction ms as [|m ms IH]; intros w p Hin Hp; simpl.
  - unfold store. rewrite list_insert_id by done. by destruct w.
  - fold (background (map (pair a) ms) (loopActs a m w)).
    fold (advance ms (applyMove m p)).
    assert (loopActs a m w = store a (applyMove m p) w) as ->.
    { unfold loopActs. rewrite bool_decide_eq_true_2 by done.
      by rewrite Hp. }
    rewrite (IH _ (applyMove m p)).
    + unfold store; simpl. by rewrite list_insert_insert_eq.
    + done.
    + simpl. apply list_lookup_insert_eq. by eapply lookup_lt_Some.
Qed.

Lemma insert_snoc (h : list InboxProcessor) p q :
  <[length h := q]> (h ++ [p]) = h ++ [q].
Proof.
  rewrite insert_app_r_alt by lia. by rewrite Nat.sub_diag.
Qed.

Lemma lookup_snoc (h : list InboxProcessor) q :
  (h ++ [q]) !! length h = Some q.
Proof.
  rewrite lookup_app_r by lia. by rewrite Nat.sub_diag.
Qed.

(** Creating and starting a processor, with the answer read after the
    loop has made the moves [ran]. *)
Lemma startCreate_launches ran userID tok w :
  gmail_NewService tok = true →
  let q := advance ran (set_isProcessing true (freshProcessor tok)) in
  startCreate ran userID tok w =
    (ProgressJSON (TotalEmails (stats q)) (isProcessing q),
     launchedWorld ran userID tok w).
Proof.
  intros Hnew q. unfold startCreate, NewInboxProcessor. rewrite Hnew.
  cbn [alloc StartProcessing freshProcessor isProcessing].
  rewrite (background_own (length (heap w)) ran _
             (set_isProcessing true (freshProcessor tok))).
  - unfold progressOf, store, spawn, Register, launchedWorld; simpl.
    rewrite list_insert_insert_eq, insert_snoc, lookup_snoc. done.
  - simpl. apply elem_of_app. right. by apply list_elem_of_singleton.
  - simpl. apply heap_alloc_store.
Qed.

(** C2: [StartProcessing] returns its error exactly when the processor is
    already running, and then changes nothing and launches nothing;
    otherwise it sets the flag, launches the loop and returns [nil]. The
    handler asked to start a run for a key whose run is in progress
    answers with the progress of that run and changes nothing. Two
    requests for a new key, whatever the loop does before the first answer
    is read and whatever the loops do between the requests: the first
    registers one processor and launches one loop, both answers are the
    progress of that processor at the moment they are read, and the second
    request changes nothing and launches nothing. *)
Theorem start_once :
  (∀ p, isProcessing p = true ↔
        (StartProcessing p).1.1 = Some "processing already in progress")
  ∧ (∀ p, isProcessing p = true →
          StartProcessing p =
            (Some "processing already in progress", p, false))
  ∧ (∀ p, isProcessing p = false →
          StartProcessing p = (None, set_isProcessing true p, true))
  ∧ (∀ ran r w tok userID a p,
       ParseToken r = inr tok → userIDOf tok = Some userID →
       Get userID w = Some a → heap w !! a = Some p →
       isProcessing p = true →
       HandleStartProcessingInbox ran r w =
         (ProgressJSON (TotalEmails (stats p)) true, w))
  ∧ (∀ ran ran' acts r w tok userID,
       ParseToken r = inr tok → userIDOf tok = Some userID →
       Get userID w = None → gmail_NewService tok = true →
       let a := length (heap w) in
       let q := advance ran (set_isProcessing true (freshProcessor tok)) in
       let first := HandleStartProcessingInbox ran r w in
       let later := background acts first.2 in
       let second := HandleStartProcessingInbox ran' r later in
       first.1 = ProgressJSON (TotalEmails (stats q)) (isProcessing q)
       ∧ first.2 = launchedWorld ran userID tok w
       ∧ Get userID later = Some a
       ∧ (∃ p, heap later !! a = Some p ∧ token p = tok
               ∧ second.1 =
                   ProgressJSON (TotalEmails (stats p)) (isProcessing p))
       ∧ second.2 = later
       ∧ goroutines second.2 = goroutines w ++ [a]).
Proof.
  split; [|split; [|split; [|split]]].
  - intros p. unfold StartProcessing.
    destruct (isProcessing p); simpl; split; congruence.
  - intros p Hp. unfold StartProcessing. by rewrite Hp.
  - intros p Hp. unfold StartProcessing. by rewrite Hp.
  - intros ran r w tok userID a p Hparse Hid Hget Hheap Hrun.
    unfold HandleStartProcessingInbox, withUserID, startFor, progressOf.
    rewrite Hparse, Hid, Hget, Hheap. unfold GetProgress; simpl.
    by rewrite Hrun.
  - intros ran ran' acts r w tok userID Hparse Hid Hget Hnew
      a q first later second.
    assert (first =
              (ProgressJSON (TotalEmails (stats q)) (isProcessing q),
               launchedWorld ran userID tok w)) as Hfirst.
    { subst first. unfold HandleStartProcessingInbox, withUserID, startFor.
      rewrite Hparse, Hid, Hget. by apply startCreate_launches. }
    destruct (background_frame acts first.2) as (Hprocs & Hgo & _).
    fold later in Hprocs, Hgo.
    assert (Get userID later = Some a) as Hget1.
    { unfold Get. rewrite Hprocs, Hfirst. simpl. apply lookup_insert_eq. }
    destruct (background_token acts first.2 a q) as (p & Hp & Htok).
    { rewrite Hfirst. simpl. apply lookup_snoc. }
    fold later in Hp.
    assert (second =
              (ProgressJSON (TotalEmails (stats p)) (isProcessing p), later))
      as Hsecond.
    { subst second.
      unfold HandleStartProcessingInbox, withUserID, startFor, progressOf.
      by rewrite Hparse, Hid, Hget1, Hp. }
    rewrite Hsecond. split; [by rewrite Hfirst|]. split; [by rewrite Hfirst|].
    split; [done|]. split.
    { exists p. split; [done|]. split; [|done].
      rewrite Htok. subst q. by rewrite advance_token. }
    split; [done|]. simpl. rewrite Hgo, Hfirst. done.
Qed.

(** ** The identity key *)

Lemma length_substring_prefix s : ∀ n,
  (n ≤ String.length s)%nat → String.length (substring 0 n s) = n.
Proof.
  induction s as [|c s IH]; intros [|n] Hn; simpl in *; try done; try lia.
  rewrite IH; [done | lia].
Qed.

Lemma GetTopSenders_20 iter p : is_Some (GetTopSenders iter p 20).
Proof.
  unfold GetTopSenders.
  set (senders := sortByCount _).
  destruct (Z.of_nat (length senders) <? 20) eqn:E.
  - destruct (Z.ltb_spec (Z.of_nat (length senders)) 0); [lia|].
    by eexists.
  - by eexists.
Qed.

(** C10: each of the four handlers takes the first ten bytes of the access
    token as the identity key without looking at its length. With a token
    of at least ten bytes the handler goes on with that key; with a
    shorter one, the empty one included, the slice is out of range and the
    handler panics. *)
Theorem identity_key_needs_ten_bytes ran r tok w iter :
  ParseToken r = inr tok →
  ((String.length (AccessToken tok) < 10)%nat →
   HandleStartProcessingInbox ran r w = (Panic, w)
   ∧ HandleGetInboxStatus r w = (Panic, w)
   ∧ HandleGetTopSenders iter r w = (Panic, w)
   ∧ HandleGetEmailStats r w = (Panic, w))
  ∧ ((10 ≤ String.length (AccessToken tok))%nat →
     let userID := substring 0 10 (AccessToken tok) in
     String.length userID = 10%nat
     ∧ (∀ i, (i < 10)%nat →
             String.get i userID = String.get i (AccessToken tok))
     ∧ HandleStartProcessingInbox ran r w = startFor ran userID tok w
     ∧ HandleGetInboxStatus r w = statusFor userID w
     ∧ HandleGetTopSenders iter r w = topSendersFor iter userID w
     ∧ HandleGetEmailStats r w = statsFor userID w
     ∧ (wfWorld w →
        (HandleStartProcessingInbox ran r w).1 ≠ Panic
        ∧ (HandleGetInboxStatus r w).1 ≠ Panic
        ∧ (HandleGetTopSenders iter r w).1 ≠ Panic
        ∧ (HandleGetEmailStats r w).1 ≠ Panic)).
Proof.
  intros Hparse. split.
  - intros Hshort.
    unfold HandleStartProcessingInbox, HandleGetInboxStatus,
      HandleGetTopSenders, HandleGetEmailStats, withUserID.
    rewrite Hparse. unfold userIDOf, slicePrefix.
    destruct (Nat.leb_spec 10 (String.length (AccessToken tok)));
      [lia | done].
  - intros Hlong userID.
    assert (userIDOf tok = Some userID) as Hid.
    { unfold userIDOf, slicePrefix.
      destruct (Nat.leb_spec 10 (String.length (AccessToken tok)));
        [done | lia]. }
    unfold HandleStartProcessingInbox, HandleGetInboxStatus,
      HandleGetTopSenders, HandleGetEmailStats, withUserID.
    rewrite Hparse, Hid.
    split; [by apply length_substring_prefix|].
    split.
    { intros i Hi. subst userID.
      rewrite (substring_correct1 (AccessToken tok) 0 10 i) by lia.
      by rewrite Nat.add_0_r. }
    do 4 (split; [done|]).
    intros Hwf. unfold startFor, statusFor, topSendersFor, statsFor,
      progressOf.
    destruct (Get userID w) as [a|] eqn:Hget.
    + unfold Get in Hget. pose proof (Hwf _ _ Hget) as Ha.
      apply lookup_lt_is_Some in Ha as [p Hp]. rewrite Hp. simpl.
      destruct (GetTopSenders_20 (iter (FromCount (stats p))) p)
        as [l ->].
      by repeat split.
    + repeat split; try done.
      destruct (gmail_NewService tok) eqn:Hnew.
      * by rewrite startCreate_launches.
      * unfold startCreate, NewInboxProcessor. by rewrite Hnew.
Qed.

(** ** Sorting the senders *)

Lemma compareSwap_perm i j s : Permutation (compareSwap i j s) s.
Proof.
  unfold compareSwap.
  destruct (s !! i) as [a|] eqn:Hi; [|done].
  destruct (s !! j) as [b|] eqn:Hj; [|done].
  destruct (Count a <? Count b); [|done].
  by apply Permutation_insert_swap.
Qed.

Lemma sortInner_perm i : ∀ fuel j s, Permutation (sortInner i j fuel s) s.
Proof.
  induction fuel as [|fuel IH]; intros j s; simpl; [done|].
  rewrite IH. apply compareSwap_perm.
Qed.

Lemma sortOuter_perm : ∀ fuel i s, Permutation (sortOuter i fuel s) s.
Proof.
  induction fuel as [|fuel IH]; intros i s; simpl; [done|].
  rewrite IH. apply sortInner_perm.
Qed.

Lemma sortByCount_perm s : Permutation (sortByCount s) s.
Proof. apply sortOuter_perm. Qed.

(** One comparison of the inner loop: the entries before [i] stay, the
    entries from [i] on are moved among themselves, and position [i]
    now also dominates position [j]. *)
Lemma compareSwap_step i j s :
  (i < j)%nat → (j < length s)%nat →
  (∀ k a b, (i < k < j)%nat → s !! i = Some a → s !! k = Some b →
            Count b ≤ Count a) →
  let s' := compareSwap i j s in
  (∀ k, (k < i)%nat → s' !! k = s !! k)
  ∧ (∀ k b, (i ≤ k)%nat → s' !! k = Some b →
            ∃ k', (i ≤ k')%nat ∧ s !! k' = Some b)
  ∧ (∀ k a b, (i < k < S j)%nat → s' !! i = Some a → s' !! k = Some b →
              Count b ≤ Count a).
Proof.
  intros Hij Hj Hdom s'. subst s'. unfold compareSwap.
  destruct (lookup_lt_is_Some_2 s i ltac:(lia)) as [a0 Ha0].
  destruct (lookup_lt_is_Some_2 s j Hj) as [b0 Hb0].
  rewrite Ha0, Hb0.
  destruct (Z.ltb_spec (Count a0) (Count b0)) as [Hlt|Hge].
  - assert (∀ k, <[i:=b0]> (<[j:=a0]> s) !! k =
                 if decide (k = i) then Some b0
                 else if decide (k = j) then Some a0 else s !! k) as Hlk.
    { intros k. destruct (decide (k = i)) as [->|Hki].
      - apply list_lookup_insert_eq. rewrite length_insert. lia.
      - rewrite list_lookup_insert_ne by done.
        destruct (decide (k = j)) as [->|Hkj].
        + by apply list_lookup_insert_eq.
        + by rewrite list_lookup_insert_ne. }
    repeat split.
    + intros k Hk. rewrite Hlk.
      rewrite decide_False by lia. by rewrite decide_False by lia.
    + intros k b Hk. rewrite Hlk.
      destruct (decide (k = i)); [intros [= <-]; exists j; split; [lia|done]|].
      destruct (decide (k = j)); [intros [= <-]; exists i; split; [lia|done]|].
      intros Hb. exists k. by split.
    + intros k a b Hk. rewrite !Hlk. rewrite decide_True by done.
      rewrite (decide_False (P := k = i)) by lia. intros [= <-].
      destruct (decide (k = j)); [intros [= <-]; lia|].
      intros Hb. pose proof (Hdom k a0 b ltac:(lia) Ha0 Hb). lia.
  - repeat split.
    + intros k b Hk Hb. exists k. by split.
    + intros k a b Hk Ha Hb. rewrite Ha0 in Ha. injection Ha as <-.
      destruct (decide (k = j)) as [->|Hkj].
      * rewrite Hb0 in Hb. injection Hb as <-. lia.
      * apply (Hdom k); [lia|done..].
Qed.

Lemma compareSwap_length i j s : length (compareSwap i j s) = length s.
Proof. apply Permutation_length, compareSwap_perm. Qed.

Lemma sortInner_inv i : ∀ fuel j s,
  (i < j)%nat → (j + fuel = length s)%nat →
  (∀ k a b, (i < k < j)%nat → s !! i = Some a → s !! k = Some b →
            Count b ≤ Count a) →
  let s' := sortInner i j fuel s in
  (∀ k, (k < i)%nat → s' !! k = s !! k)
  ∧ (∀ k b, (i ≤ k)%nat → s' !! k = Some b →
            ∃ k', (i ≤ k')%nat ∧ s !! k' = Some b)
  ∧ (∀ k a b, (i < k)%nat → s' !! i = Some a → s' !! k = Some b →
              Count b ≤ Count a).
Proof.
  induction fuel as [|fuel IH]; intros j s Hij Hlen Hdom; simpl.
  - repeat split.
    + intros k b Hk Hb. exists k. by split.
    + intros k a b Hk Ha Hb. apply (Hdom k); [|done..].
      apply lookup_lt_Some in Hb. lia.
  - destruct (compareSwap_step i j s Hij ltac:(lia) Hdom)
      as (Hpre & Hsuf & Hdom').
    destruct (IH (S j) (compareSwap i j s) ltac:(lia)
                ltac:(rewrite compareSwap_length; lia) Hdom')
      as (Hpre' & Hsuf' & Hdom'').
    repeat split.
    + intros k Hk. rewrite Hpre' by done. by apply Hpre.
    + intros k b Hk Hb.
      destruct (Hsuf' k b Hk Hb) as (k' & Hk' & Hb'). by apply (Hsuf k').
    + exact Hdom''.
Qed.

Lemma sortInner_length i fuel j s : length (sortInner i j fuel s) = length s.
Proof. apply Permutation_length, sortInner_perm. Qed.

Lemma sortOuter_inv : ∀ fuel i s,
  (i + fuel = length s)%nat →
  (∀ i' k a b, (i' < i)%nat → (i' < k)%nat →
               s !! i' = Some a → s !! k = Some b → Count b ≤ Count a) →
  ∀ i' k a b, (i' < k)%nat →
    sortOuter i fuel s !! i' = Some a → sortOuter i fuel s !! k = Some b →
    Count b ≤ Count a.
Proof.
  induction fuel as [|fuel IH]; intros i s Hlen Hdom; simpl.
  - intros i' k a b Hk Ha Hb. apply (Hdom i' k); try done.
    apply lookup_lt_Some in Ha. lia.
  - destruct (sortInner_inv i (length s - S i) (S i) s ltac:(lia)
                ltac:(lia) ltac:(intros; lia))
      as (Hpre & Hsuf & Hdomi).
    apply IH.
    + rewrite sortInner_length. lia.
    + intros i' k a b Hi' Hk Ha Hb.
      destruct (decide (i' = i)) as [->|Hne]; [by apply (Hdomi k)|].
      rewrite Hpre in Ha by lia.
      destruct (decide (k < i)%nat) as [Hki|Hki].
      * rewrite Hpre in Hb by lia. apply (Hdom i' k); [lia|done..].
      * destruct (Hsuf k b ltac:(lia) Hb) as (k' & Hk' & Hb').
        apply (Hdom i' k'); [lia|lia|done..].
Qed.

Lemma sortByCount_sorted s i k a b :
  (i < k)%nat → sortByCount s !! i = Some a → sortByCount s !! k = Some b →
  Count b ≤ Count a.
Proof.
  apply sortOuter_inv; [lia|]. intros. lia.
Qed.

(** ** Counts accumulated from the records *)

Lemma FromCount_records ms : ∀ s,
  FromCount (foldl (fun s m => updateStats m s) s ms) =
    foldl (fun m to => bump to 1 m) (FromCount s) (map From ms).
Proof. induction ms as [|m ms IH]; intros s; simpl; [done|]. by rewrite IH. Qed.

Lemma occ_le_length k l : (occ k l ≤ length l)%nat.
Proof. apply count_occ_bound. Qed.

Lemma getZ_FromCount_records ms e :
  Z.of_nat (length ms) ≤ GoInt.maxInt →
  getZ (FromCount (foldl (fun s m => updateStats m s) NewEmailStats ms)) e =
    Z.of_nat (occ e (map From ms)).
Proof.
  intros Hmax. rewrite FromCount_records, getZ_bumps_exact; [done|].
  intros _. pose proof (occ_le_length e (map From ms)) as Hle.
  rewrite length_map in Hle.
  unfold GoInt.inRange, GoInt.minInt. simpl. unfold getZ.
  rewrite lookup_empty. simpl. lia.
Qed.

(** C3: for [n >= 0], whatever the order in which the map is ranged
    over, [GetTopSenders n] returns [min n d] entries, [d] the number of
    senders in the statistics; together with the entries left out they are
    the senders of the statistics, each once, with its count and its byte
    total; they are in non-increasing order of count and no entry left out
    has a higher count than a returned one. When the statistics were
    accumulated from a list of records, the count returned for a sender is
    the number of records from that sender. *)
Theorem GetTopSenders_top (iter : list (string * Z)) (p : InboxProcessor)
  (n : Z) :
  0 ≤ n →
  rangeOf (FromCount (stats p)) iter →
  ∃ result rest,
    GetTopSenders iter p n = Some result
    ∧ length result =
        Nat.min (Z.to_nat n) (size (FromCount (stats p)))
    ∧ Permutation (result ++ rest)
        (map (fun ec => {| Email := ec.1; Count := ec.2;
                           Size := getZ (FromSize (stats p)) ec.1 |})
             (map_to_list (FromCount (stats p))))
    ∧ NoDup (map Email (result ++ rest))
    ∧ (∀ i k a b, (i < k)%nat →
         result !! i = Some a → result !! k = Some b → Count b ≤ Count a)
    ∧ (∀ a b, a ∈ result → b ∈ rest → Count b ≤ Count a)
    ∧ (∀ a, a ∈ result →
         FromCount (stats p) !! Email a = Some (Count a)
         ∧ Size a = getZ (FromSize (stats p)) (Email a))
    ∧ (∀ ms,
         FromCount (stats p) =
           FromCount
             (foldl (fun s m => updateStats m s) NewEmailStats ms) →
         Z.of_nat (length ms) ≤ GoInt.maxInt →
         ∀ a, a ∈ result →
           Count a = Z.of_nat (occ (Email a) (map From ms))).
Proof.
  intros Hn Hrange. unfold rangeOf in Hrange.
  set (entry := fun ec : string * Z =>
                  {| Email := ec.1; Count := ec.2;
                     Size := getZ (FromSize (stats p)) ec.1 |}).
  set (sorted := sortByCount (map entry iter)).
  assert (Permutation sorted (map entry (map_to_list (FromCount (stats p)))))
    as Hperm.
  { subst sorted. rewrite sortByCount_perm. by apply Permutation_map. }
  assert (length sorted = size (FromCount (stats p))) as Hlen.
  { rewrite (Permutation_length Hperm), length_map.
    apply length_map_to_list. }
  set (m := Nat.min (Z.to_nat n) (length sorted)).
  assert (GetTopSenders iter p n = Some (take m sorted)) as Hres.
  { unfold GetTopSenders. fold entry. fold sorted.
    destruct (Z.ltb_spec (Z.of_nat (length sorted)) n) as [Hlt|Hge].
    - destruct (Z.ltb_spec (Z.of_nat (length sorted)) 0); [lia|].
      do 2 f_equal. subst m. lia.
    - destruct (Z.ltb_spec n 0); [lia|]. do 2 f_equal. subst m. lia. }
  assert (∀ a, a ∈ sorted →
            FromCount (stats p) !! Email a = Some (Count a)
            ∧ Size a = getZ (FromSize (stats p)) (Email a)) as Hentries.
  { intros a Ha. rewrite Hperm in Ha.
    apply list_elem_of_In, in_map_iff in Ha as ([e c] & <- & Hin).
    apply list_elem_of_In, elem_of_map_to_list in Hin. by split. }
  exists (take m sorted), (drop m sorted).
  split; [exact Hres|]. split.
  { rewrite length_take, <- Hlen. subst m. lia. }
  split; [by rewrite take_drop|]. split.
  { rewrite take_drop, Hperm, map_map. simpl.
    apply (NoDup_fst_map_to_list (FromCount (stats p))). }
  split.
  { intros i k a b Hik Ha Hb.
    apply lookup_take_Some in Ha as [Ha _].
    apply lookup_take_Some in Hb as [Hb _].
    by apply (sortByCount_sorted (map entry iter) i k). }
  split.
  { intros a b Ha Hb.
    apply elem_of_take in Ha as (i & Ha & Hi).
    apply list_elem_of_lookup in Hb as (k & Hb).
    rewrite lookup_drop in Hb.
    apply (sortByCount_sorted (map entry iter) i (m + k)); [lia|done..]. }
  split.
  { intros a Ha. apply Hentries. by eapply subseteq_take. }
  intros ms Hms Hmax a Ha.
  destruct (Hentries a) as [Hc _]; [by eapply subseteq_take|].
  rewrite <- (getZ_FromCount_records ms (Email a) Hmax), <- Hms.
  unfold getZ. by rewrite Hc.
Qed.

(** * Part II, continued: further properties of the code *)

(** ** The registry *)

(** X1: [Get] after [Register] finds the processor registered last under
    the key and is unchanged for every other key; [Get] after [Remove]
    finds nothing under the key and is unchanged for every other key.
    Neither operation touches the processors themselves or their loops: a
    processor that is replaced or removed stays allocated and its goroutine
    stays launched. *)
Theorem registry_round_trip (u v : string) (a b : nat) (w : World) :
  Get v (Register u a w) = (if decide (u = v) then Some a else Get v w)
  ∧ Get v (Remove u w) = (if decide (u = v) then None else Get v w)
  ∧ Register u b (Register u a w) = Register u b w
  ∧ Remove u (Register u a w) = Remove u w
  ∧ Remove u (Remove u w) = Remove u w
  ∧ heap (Register u a w) = heap w
  ∧ goroutines (Register u a w) = goroutines w
  ∧ heap (Remove u w) = heap w
  ∧ goroutines (Remove u w) = goroutines w.
Proof.
  unfold Get, Register, Remove; simpl. repeat split.
  - apply lookup_insert.
  - apply lookup_delete.
  - by rewrite insert_insert_eq.
  - by rewrite delete_insert_eq.
  - by rewrite delete_delete_eq.
Qed.

(** ** The Authorization header *)

Lemma substring_all s : substring 0 (String.length s) s = s.
Proof. induction s as [|c s IH]; simpl; [done|]. by rewrite IH. Qed.

(** X2: [ParseToken] refuses an empty header; it removes a leading
    ["Bearer "] once, and only when something follows it, and hands the rest
    to the decoder; any other header goes to the decoder whole. *)
Theorem ParseToken_bearer :
  let decode := fun s =>
    match json_Unmarshal s with
    | None => inl "invalid token format"
    | Some tok => inr tok
    end in
  ParseToken {| Authorization := EmptyString |}
    = inl "authorization header not provided"
  ∧ (∀ c s,
       ParseToken {| Authorization := String.append "Bearer " (String c s) |}
         = decode (String c s))
  ∧ ParseToken {| Authorization := "Bearer " |} = decode "Bearer "
  ∧ (∀ c s,
       String.eqb (substring 0 7 (String c s)) "Bearer " = false →
       ParseToken {| Authorization := String c s |} = decode (String c s)).
Proof.
  intros decode. subst decode. split; [done|]. split; [|split; [done|]].
  - intros c s. unfold ParseToken. simpl.
    by rewrite substring_all.
  - intros c s Hno. unfold ParseToken.
    cbn [Authorization]. rewrite Hno, andb_false_r. done.
Qed.

(** ** Cutting the sorted senders *)

(** X3: [GetTopSenders] panics exactly when [n] is negative. *)
Theorem GetTopSenders_panics_iff iter p n :
  GetTopSenders iter p n = None ↔ n < 0.
Proof.
  unfold GetTopSenders. set (senders := sortByCount _).
  destruct (Z.ltb_spec (Z.of_nat (length senders)) n) as [Hlt|Hge].
  - destruct (Z.ltb_spec (Z.of_nat (length senders)) 0); split;
      intros; try done; lia.
  - destruct (Z.ltb_spec n 0); split; intros; try done; lia.
Qed.

(** X4: for the same order of iteration, the answer for a smaller [n] is
    the beginning of the answer for a larger one. *)
Theorem GetTopSenders_prefix iter p n n' :
  0 ≤ n → n ≤ n' →
  ∃ r r',
    GetTopSenders iter p n = Some r ∧ GetTopSenders iter p n' = Some r'
    ∧ r = take (Z.to_nat n) r'.
Proof.
  intros Hn Hnn'. unfold GetTopSenders. set (senders := sortByCount _).
  assert (∀ m, 0 ≤ m →
            (let k := if Z.of_nat (length senders) <? m
                      then Z.of_nat (length senders) else m in
             if k <? 0 then None else Some (take (Z.to_nat k) senders))
            = Some (take (Z.to_nat m) senders)) as Hcut.
  { intros m Hm.
    destruct (Z.ltb_spec (Z.of_nat (length senders)) m) as [Hlt|Hge]; simpl.
    - destruct (Z.ltb_spec (Z.of_nat (length senders)) 0); [lia|].
      rewrite Nat2Z.id. f_equal.
      rewrite !take_ge; [done | lia | lia].
    - by destruct (Z.ltb_spec m 0); [lia|]. }
  exists (take (Z.to_nat n) senders), (take (Z.to_nat n') senders).
  split; [by apply Hcut|]. split; [apply Hcut; lia|].
  rewrite take_take. f_equal. lia.
Qed.

(** ** Sorting a slice that is sorted *)

Lemma compareSwap_sorted i j s :
  (i < j)%nat → nonIncreasing s → compareSwap i j s = s.
Proof.
  intros Hij Hs. unfold compareSwap.
  destruct (s !! i) as [a|] eqn:Ha; [|done].
  destruct (s !! j) as [b|] eqn:Hb; [|done].
  destruct (Z.ltb_spec (Count a) (Count b)) as [Hlt|]; [|done].
  pose proof (Hs i j a b Hij Ha Hb). lia.
Qed.

Lemma sortInner_sorted i : ∀ fuel j s,
  (i < j)%nat → nonIncreasing s → sortInner i j fuel s = s.
Proof.
  induction fuel as [|fuel IH]; intros j s Hij Hs; simpl; [done|].
  rewrite compareSwap_sorted by done. apply IH; [lia|done].
Qed.

Lemma sortOuter_sorted : ∀ fuel i s,
  nonIncreasing s → sortOuter i fuel s = s.
Proof.
  induction fuel as [|fuel IH]; intros i s Hs; simpl; [done|].
  rewrite sortInner_sorted by (done || lia). by apply IH.
Qed.

(** X5: a slice whose counts are already in non-increasing order comes out
    of the sort as it went in; in particular its entries with equal counts
    keep their order. *)
Theorem sortByCount_sorted_unchanged s :
  nonIncreasing s → sortByCount s = s.
Proof. apply sortOuter_sorted. Qed.


(** ** Header values between angle brackets *)

Lemma hasByte_get c s :
  hasByte c s = false → ∀ i, String.get i s ≠ Some c.
Proof.
  induction s as [|d s IH]; simpl; [by intros _ [|i]|].
  destruct (ascii_dec d c) as [->|Hne]; [done|].
  intros Hs [|i]; simpl; [congruence | by apply IH].
Qed.

Lemma get_append_l pre s : ∀ i,
  (i < String.length pre)%nat →
  String.get i (pre +:+ s) = String.get i pre.
Proof.
  induction pre as [|c pre IH]; simpl; intros i Hi; [lia|].
  destruct i as [|i]; [done|]. apply IH. lia.
Qed.

Lemma get_append_r pre s : ∀ i,
  String.get (String.length pre + i) (pre +:+ s) = String.get i s.
Proof. induction pre as [|c pre IH]; simpl; intros i; [done | apply IH]. Qed.

Lemma length_append_string pre s :
  String.length (pre +:+ s) = (String.length pre + String.length s)%nat.
Proof. induction pre as [|c pre IH]; simpl; [done | by rewrite IH]. Qed.

Lemma substring_append_r pre s : ∀ n m,
  substring (String.length pre + n) m (pre +:+ s) = substring n m s.
Proof. induction pre as [|c pre IH]; simpl; intros n m; [done | apply IH]. Qed.

Lemma substring_append_l mid s :
  substring 0 (String.length mid) (mid +:+ s) = mid.
Proof.
  induction mid as [|c mid IH]; simpl; [by destruct s | by rewrite IH].
Qed.

(** The first ['<'] of [pre ++ "<" ++ rest] when [pre] has none. *)
Lemma scanStart_bracket pre rest :
  hasByte "<" pre = false →
  let h := pre +:+ String "<" rest in
  scanStart h (String.length h) 0 = S (String.length pre).
Proof.
  intros Hpre h.
  assert (String.get (String.length pre) h = Some "<"%char) as Hat.
  { subst h. rewrite <- (Nat.add_0_r (String.length pre)).
    by rewrite get_append_r. }
  destruct (scanStart_spec h (String.length h) 0 ltac:(lia)
              ltac:(intros; lia)) as [[_ Hnone]|(k & -> & Hk & Hbefore)].
  - by destruct (Hnone (String.length pre)).
  - f_equal. destruct (Nat.lt_trichotomy k (String.length pre))
      as [Hlt|[->|Hgt]]; [|done|].
    + subst h. rewrite get_append_l in Hk by done.
      by destruct (hasByte_get _ _ Hpre k).
    + by destruct (Hbefore (String.length pre) Hgt).
Qed.

(** The last ['>'] of [front ++ ">" ++ post] when [post] has none. *)
Lemma scanEnd_bracket front post :
  hasByte ">" post = false →
  let h := front +:+ String ">" post in
  scanEnd h (String.length h) = String.length front.
Proof.
  intros Hpost h.
  assert (String.get (String.length front) h = Some ">"%char) as Hat.
  { subst h. rewrite <- (Nat.add_0_r (String.length front)).
    by rewrite get_append_r. }
  destruct (scanEnd_spec h (String.length h) ltac:(lia))
    as [[_ Hnone]|[He Hafter]].
  - intros j Hj. rewrite get_beyond; [discriminate | done].
  - by destruct (Hnone (String.length front)).
  - destruct (Nat.lt_trichotomy (scanEnd h (String.length h))
                (String.length front)) as [Hlt|[Heq|Hgt]]; [|done|].
    + by destruct (Hafter (String.length front) Hlt).
    + exfalso. revert He.
      replace (scanEnd h (String.length h))
        with (String.length front
              + S (scanEnd h (String.length h) - S (String.length front)))%nat
        by lia.
      subst h. rewrite get_append_r. simpl. by apply hasByte_get.
Qed.

(** X6: in a value [pre<mid>post], where [pre] has no ['<'] and [post] no
    ['>'], the address is [mid], whatever [mid] contains, unless [mid] is
    empty: then the whole value is returned. *)
Theorem extractEmailAddress_brackets pre mid post :
  hasByte "<" pre = false → hasByte ">" post = false →
  let header := pre +:+ String "<" (mid +:+ String ">" post) in
  extractEmailAddress header =
    match mid with
    | EmptyString => header
    | String _ _ => mid
    end.
Proof.
  intros Hpre Hpost header. unfold extractEmailAddress.
  assert (scanStart header (String.length header) 0 = S (String.length pre))
    as -> by (by apply scanStart_bracket).
  assert (header = (pre +:+ String "<" mid) +:+ String ">" post) as Hsplit.
  { subst header. clear. induction pre as [|c pre IH]; [done|].
    change (String c pre +:+ String "<" (mid +:+ String ">" post))
      with (String c (pre +:+ String "<" (mid +:+ String ">" post))).
    by rewrite IH. }
  assert (scanEnd header (String.length header)
          = (String.length pre + S (String.length mid))%nat) as ->.
  { rewrite Hsplit, (scanEnd_bracket (pre +:+ String "<" mid) post Hpost).
    by rewrite length_append_string. }
  destruct mid as [|c mid].
  - rewrite (proj2 (Nat.ltb_ge _ _)) by (simpl; lia). done.
  - rewrite (proj2 (Nat.ltb_lt _ _)) by (simpl; lia).
    replace (String.length pre + S (String.length (String c mid))
             - S (String.length pre))%nat
      with (String.length (String c mid)) by (simpl; lia).
    subst header.
    replace (S (String.length pre)) with (String.length pre + 1)%nat by lia.
    rewrite substring_append_r.
    change (substring 1 (String.length (String c mid))
              (String "<" (String c mid +:+ String ">" post)))
      with (substring 0 (String.length (String c mid))
              (String c mid +:+ String ">" post)).
    apply substring_append_l.
Qed.

(** ** The fields of the extracted metadata *)

Lemma headerValues_cons name h hs :
  headerValues name (h :: hs) =
    if String.eqb (gmail.Name h) name
    then gmail.Value h :: headerValues name hs
    else headerValues name hs.
Proof.
  unfold headerValues. simpl.
  by destruct (String.eqb (gmail.Name h) name).
Qed.

Lemma foldl_headerStep_fields hs : ∀ md,
  let md' := foldl headerStep md hs in
  To md' = To md ++ map extractEmailAddress (headerValues "To" hs)
  ∧ From md' =
      match last (headerValues "From" hs) with
      | Some v => extractEmailAddress v
      | None => From md
      end
  ∧ Subject md' = default (Subject md) (last (headerValues "Subject" hs))
  ∧ Date md' =
      foldl (fun d v => parseDate v d) (Date md) (headerValues "Date" hs)
  ∧ ID md' = ID md ∧ ThreadID md' = ThreadID md ∧ Snippet md' = Snippet md
  ∧ LabelIDs md' = LabelIDs md ∧ SizeEstimate md' = SizeEstimate md.
Proof.
  induction hs as [|h hs IH]; intros md; simpl.
  - rewrite app_nil_r. by repeat split.
  - destruct (IH (headerStep md h))
      as (HTo & HFrom & HSubject & HDate & HID & HTh & HSn & HLa & HSi).
    rewrite HTo, HFrom, HSubject, HDate, HID, HTh, HSn, HLa, HSi.
    rewrite !headerValues_cons. unfold headerStep.
    destruct (String.eqb_spec (gmail.Name h) "From") as [E|E1].
    { rewrite E. simpl. rewrite last_cons.
      by destruct (last (headerValues "From" hs)). }
    destruct (String.eqb_spec (gmail.Name h) "To") as [E|E2].
    { rewrite E. simpl. by rewrite <- app_assoc. }
    destruct (String.eqb_spec (gmail.Name h) "Subject") as [E|E3].
    { rewrite E. simpl. rewrite last_cons.
      by destruct (last (headerValues "Subject" hs)). }
    destruct (String.eqb_spec (gmail.Name h) "Date") as [E|E4].
    { by simpl. }
    by repeat split.
Qed.

(** X7: the metadata of a message: one recipient per header called [To], in
    the order of the headers, each the address of the whole header value;
    the sender and the subject come from the last [From] and the last
    [Subject] header and are empty without one; the timestamp is the [Date]
    headers folded in order from the zero time; identifier, thread, snippet,
    labels and size are copied from the message. Names are compared as they
    are written. *)
Theorem extractMetadata_fields msg :
  let md := extractMetadata msg in
  let headers := gmail.Headers (gmail.Payload msg) in
  To md = map extractEmailAddress (headerValues "To" headers)
  ∧ From md =
      match last (headerValues "From" headers) with
      | Some v => extractEmailAddress v
      | None => EmptyString
      end
  ∧ Subject md = default EmptyString (last (headerValues "Subject" headers))
  ∧ Date md =
      foldl (fun d v => parseDate v d) zeroTime (headerValues "Date" headers)
  ∧ ID md = gmail.Id msg ∧ ThreadID md = gmail.ThreadId msg
  ∧ Snippet md = gmail.Snippet msg ∧ LabelIDs md = gmail.LabelIds msg
  ∧ SizeEstimate md = gmail.SizeEstimate msg.
Proof.
  intros md headers. subst md headers. unfold extractMetadata.
  apply (foldl_headerStep_fields (gmail.Headers (gmail.Payload msg))).
Qed.

(** X8: when a [Date] header parses and no [Date] header after it does,
    the timestamp is that of this header: an earlier value is replaced, a
    later header that does not parse changes nothing. *)
Theorem last_parsed_Date_wins msg hs1 h hs2 pre format post t :
  gmail.Headers (gmail.Payload msg) = hs1 ++ h :: hs2 →
  gmail.Name h = "Date" →
  formats = pre ++ format :: post →
  Forall (fun f => time_Parse f (gmail.Value h) = None) pre →
  time_Parse format (gmail.Value h) = Some t →
  Forall (fun h' =>
            gmail.Name h' = "Date" →
            Forall (fun f => time_Parse f (gmail.Value h') = None) formats)
         hs2 →
  Date (extractMetadata msg) = t.
Proof.
  intros Hhs Hname Hsplit Hpre Hf Hlater. unfold extractMetadata.
  rewrite Hhs, foldl_app. cbn [foldl].
  rewrite foldl_headerStep_Date_kept by done.
  unfold headerStep. rewrite Hname. simpl.
  by eapply parseDate_first.
Qed.


(** ** What a run leaves behind *)

Lemma appended_app l1 l2 : appended (l1 ++ l2) = appended l1 ++ appended l2.
Proof. apply flat_map_app. Qed.

Lemma appended_pageSections msgs :
  appended (pageSections msgs) = recorded (pageSections msgs).
Proof.
  induction msgs as [|[id [msg|]] msgs IH]; simpl; [done| |done].
  by rewrite IH.
Qed.

Lemma recorded_pageSections_fetched msgs :
  length (recorded (pageSections msgs)) = length (List.filter isFetched msgs).
Proof.
  induction msgs as [|[id [msg|]] msgs IH]; simpl; [done| |done].
  by rewrite IH.
Qed.

Lemma filter_length_le (msgs : list unit_) :
  (length (List.filter isFetched msgs) ≤ length msgs)%nat.
Proof.
  induction msgs as [|u msgs IH]; simpl; [done|].
  destruct (isFetched u); simpl; lia.
Qed.

Lemma fetched_le_listed script : (fetched script ≤ listed script)%nat.
Proof.
  induction script as [|[|msgs next] script IH]; simpl; [done..|].
  pose proof (filter_length_le msgs).
  destruct (String.eqb next EmptyString); lia.
Qed.

(** The sections a run adds to its log, and what they do to the emails and
    to the four maps of the processor it started from. *)
Lemma processInboxFrom_adds sched script : ∀ k pt reqs log p,
  let r := processInboxFrom sched script k pt reqs log p in
  ∃ new,
    sections r = log ++ new
    ∧ emails (proc r) = emails p ++ appended new
    ∧ stats (proc r) =
        set_TotalEmails (TotalEmails (stats (proc r)))
          (foldl (fun s m => updateStats m s) (stats p) (recorded new))
    ∧ token (proc r) = token p
    ∧ (fairScheduler sched →
       Permutation (appended new) (recorded new)
       ∧ length (recorded new) = fetched script)
    ∧ (sched = inOrder → appended new = recorded new).
Proof.
  induction script as [|[|msgs next] script IH]; intros k pt reqs log p.
  - exists []. simpl. rewrite !app_nil_r. by destruct (stats p).
  - exists []. simpl. rewrite !app_nil_r. by destruct (stats p).
  - cbn [processInboxFrom].
    set (entered := sched k (pageSections msgs)).
    set (p1 := addTotal msgs (runSections entered p)).
    assert (emails p1 = emails p ++ appended entered) as Hemails
      by (subst p1; unfold addTotal; simpl; apply emails_runSections).
    assert (stats p1 =
              set_TotalEmails (TotalEmails (stats p1))
                (foldl (fun s m => updateStats m s) (stats p)
                   (recorded entered))) as Hstats.
    { subst p1. unfold addTotal; simpl. rewrite stats_runSections.
      by destruct (foldl _ _ _). }
    assert (token p1 = token p) as Htoken.
    { subst p1. unfold addTotal; simpl.
      apply (frame_runSections entered p). }
    assert (fairScheduler sched →
            Permutation (appended entered) (recorded entered)
            ∧ length (recorded entered) = length (List.filter isFetched msgs))
      as Hfair.
    { intros Hf. split.
      - subst entered. unfold appended at 1.
        rewrite (Permutation_flat_map _ (Hf k (pageSections msgs))).
        fold (appended (pageSections msgs)).
        rewrite appended_pageSections.
        symmetry. apply recorded_perm, Hf.
      - subst entered.
        rewrite (Permutation_length (recorded_perm _ _ (Hf k _))).
        apply recorded_pageSections_fetched. }
    assert (sched = inOrder → appended entered = recorded entered) as Hin.
    { intros ->. apply appended_pageSections. }
    simpl. destruct (String.eqb next "").
    + exists entered. simpl. repeat split; try done.
      * by apply Hfair.
      * rewrite Nat.add_0_r. by apply Hfair.
    + destruct (IH (S k) next (reqs ++ [pt]) (log ++ entered) p1)
        as (new & Hsec & Hem & Hst & Htok & Hf & Ho).
      exists (entered ++ new). repeat split.
      * by rewrite Hsec, app_assoc.
      * by rewrite Hem, Hemails, appended_app, app_assoc.
      * rewrite Hst at 1. rewrite recorded_app, foldl_app.
        rewrite Hstats at 1. by rewrite records_total.
      * by rewrite Htok.
      * rewrite appended_app, recorded_app.
        by rewrite (proj1 (Hfair H)), (proj1 (Hf H)).
      * rewrite recorded_app, length_app.
        by rewrite (proj2 (Hfair H)), (proj2 (Hf H)).
      * intros Hs. by rewrite appended_app, recorded_app, Hin, Ho.
Qed.

(** X9: the metadata a run collects and the records it adds to the
    statistics are those of the same messages: the emails at the end are
    the emails at the start followed by one entry per record made, in the
    order of the append sections; with a fair scheduler that is a
    permutation of the records, and without interleaving it is the records
    in their order. *)
Theorem emails_follow_records sched script p :
  fairScheduler sched →
  let r := processInbox sched script p in
  let r0 := processInbox inOrder script p in
  emails (proc r) = emails p ++ appended (sections r)
  ∧ Permutation (emails (proc r)) (emails p ++ recorded (sections r))
  ∧ emails (proc r0) = emails p ++ recorded (sections r0).
Proof.
  intros Hf r r0. subst r r0. unfold processInbox.
  destruct (processInboxFrom_adds sched script 0%nat "" [] [] p)
    as (new & Hsec & Hem & _ & _ & Hfair & _).
  destruct (processInboxFrom_adds inOrder script 0%nat "" [] [] p)
    as (new0 & Hsec0 & Hem0 & _ & _ & _ & Hin).
  simpl in Hsec, Hsec0. rewrite Hsec, Hsec0, Hem, Hem0.
  repeat split.
  - by rewrite (proj1 (Hfair Hf)).
  - by rewrite Hin.
Qed.

Lemma processInboxFrom_listed sched script : ∀ k pt reqs log p t0,
  TotalEmails (stats p) = GoInt.wrap64 t0 →
  let r := processInboxFrom sched script k pt reqs log p in
  TotalEmails (stats (proc r)) =
    GoInt.wrap64 (t0 + Z.of_nat (listed script)).
Proof.
  induction script as [|[|msgs next] script IH];
    intros k pt reqs log p t0 Ht; simpl.
  - by rewrite Z.add_0_r.
  - by rewrite Z.add_0_r.
  - set (entered := sched k (pageSections msgs)).
    assert (TotalEmails (stats (addTotal msgs (runSections entered p)))
            = GoInt.wrap64 (t0 + Z.of_nat (length msgs))) as Ht'.
    { unfold addTotal; simpl.
      rewrite stats_runSections, TotalEmails_records, Ht.
      unfold GoInt.add. by rewrite wrap64_add_l. }
    destruct (String.eqb next "").
    + etransitivity; [exact Ht'|]. f_equal. lia.
    + rewrite (IH _ _ _ _ _ _ Ht'). f_equal. lia.
Qed.

(** X10: at the end of a run the total counter has grown, in 64-bit
    arithmetic, by the number of messages listed in the pages read, whether
    their fetches succeeded or not, while the number of records made is the
    number of messages fetched, which is never larger. *)
Theorem total_counts_listed sched script p :
  GoInt.inRange (TotalEmails (stats p)) →
  fairScheduler sched →
  let r := processInbox sched script p in
  TotalEmails (stats (proc r)) =
    GoInt.wrap64 (TotalEmails (stats p) + Z.of_nat (listed script))
  ∧ length (recorded (sections r)) = fetched script
  ∧ (fetched script ≤ listed script)%nat.
Proof.
  intros Hrange Hf r. subst r. unfold processInbox. split; [|split].
  - apply processInboxFrom_listed. by rewrite wrap64_id.
  - destruct (processInboxFrom_adds sched script 0%nat "" [] [] p)
      as (new & Hsec & _ & _ & _ & Hfair & _).
    simpl in Hsec. rewrite Hsec. by apply Hfair.
  - apply fetched_le_listed.
Qed.

Lemma processInboxFrom_requests sched script : ∀ k pt reqs log p,
  let r := processInboxFrom sched script k pt reqs log p in
  requests r = reqs ++ pt :: cursors script
  ∧ exited r = existsb terminal script
  ∧ isProcessing (proc r) = (if exited r then false else isProcessing p).
Proof.
  induction script as [|[|msgs next] script IH];
    intros k pt reqs log p; [by simpl..|].
  cbn [processInboxFrom cursors existsb terminal].
  set (p1 := addTotal msgs (runSections (sched k (pageSections msgs)) p)).
  assert (isProcessing p1 = isProcessing p) as Hflag.
  { subst p1. unfold addTotal; simpl.
    apply (frame_runSections (sched k (pageSections msgs)) p). }
  destruct (String.eqb next ""); [by simpl|].
  destruct (IH (S k) next (reqs ++ [pt])
              (log ++ sched k (pageSections msgs)) p1) as (Hr & He & Hi).
  cbn [orb]. rewrite Hr, Hi, !He, Hflag, <- app_assoc. done.
Qed.

(** X11: the first listing request carries no page token and each later
    one carries the token announced by the page before it; the loop ends
    exactly when the service answers with an error or with a page that
    announces no successor, and it clears the running flag when it ends
    and not before. *)
Theorem requests_follow_cursors sched script p :
  let r := processInbox sched script p in
  requests r = EmptyString :: cursors script
  ∧ exited r = existsb terminal script
  ∧ isProcessing (proc r) = (if exited r then false else isProcessing p).
Proof. apply processInboxFrom_requests. Qed.

(** X12: a processor whose run has ended can be started again, and the
    next run adds to what is there: its emails are appended to the emails
    of the first run and its records are folded into the maps of the first
    run. Nothing is reset. *)
Theorem second_run_accumulates sched script1 script2 p :
  exited (processInbox sched script1 p) = true →
  let p1 := proc (processInbox sched script1 p) in
  let r2 := processInbox sched script2 (set_isProcessing true p1) in
  StartProcessing p1 = (None, set_isProcessing true p1, true)
  ∧ emails (proc r2) = emails p1 ++ appended (sections r2)
  ∧ stats (proc r2) =
      set_TotalEmails (TotalEmails (stats (proc r2)))
        (foldl (fun s m => updateStats m s) (stats p1)
           (recorded (sections r2))).
Proof.
  intros Hexit p1 r2. split.
  - unfold StartProcessing.
    destruct (processInboxFrom_requests sched script1 0%nat "" [] [] p)
      as (_ & _ & Hflag).
    fold (processInbox sched script1 p) in Hflag. rewrite Hexit in Hflag.
    subst p1. by rewrite Hflag.
  - subst r2. unfold processInbox at 1 3 4.
    destruct (processInboxFrom_adds sched script2 0%nat "" [] []
                (set_isProcessing true p1))
      as (new & Hsec & Hem & Hst & _).
    simpl in Hsec. fold (processInbox sched script2 (set_isProcessing true p1))
      in Hsec, Hem, Hst.
    rewrite Hsec. by split.
Qed.

(** ** Senders and their byte totals *)

Lemma dom_bump k d (m : gmap string Z) : dom (bump k d m) = {[k]} ∪ dom m.
Proof. unfold bump. apply dom_insert_L. Qed.

Lemma dom_records ms : ∀ s,
  dom (FromCount s) = dom (FromSize s) →
  dom (FromCount (foldl (fun s m => updateStats m s) s ms))
  = dom (FromSize (foldl (fun s m => updateStats m s) s ms)).
Proof.
  induction ms as [|m ms IH]; intros s Hs; simpl; [done|].
  apply IH. simpl. by rewrite !dom_bump, Hs.
Qed.

(** X13: the senders that have a count are the senders that have a byte
    total, and a run keeps it so. *)
Theorem senders_have_sizes sched script p :
  dom (FromCount (stats p)) = dom (FromSize (stats p)) →
  let r := processInbox sched script p in
  dom (FromCount (stats (proc r))) = dom (FromSize (stats (proc r))).
Proof.
  intros Hdom r. subst r. unfold processInbox.
  destruct (processInboxFrom_adds sched script 0%nat "" [] [] p)
    as (new & _ & _ & Hst & _).
  rewrite Hst. simpl. by apply dom_records.
Qed.


(** ** What the handlers do to the registry *)

Lemma HandleStart_world ran r w :
  (HandleStartProcessingInbox ran r w).2 = w
  ∨ ∃ tok userID,
      ParseToken r = inr tok ∧ userIDOf tok = Some userID
      ∧ Get userID w = None
      ∧ HandleStartProcessingInbox ran r w =
          (let q := advance ran (set_isProcessing true (freshProcessor tok))
           in ProgressJSON (TotalEmails (stats q)) (isProcessing q),
           launchedWorld ran userID tok w).
Proof.
  unfold HandleStartProcessingInbox, withUserID.
  destruct (ParseToken r) as [e|tok] eqn:Hparse; [by left|].
  destruct (userIDOf tok) as [userID|] eqn:Hid; [|by left].
  unfold startFor.
  destruct (Get userID w) as [a|] eqn:Hget; [by left|].
  destruct (gmail_NewService tok) eqn:Hnew.
  - right. exists tok, userID. repeat split; try done.
    by apply startCreate_launches.
  - left. unfold startCreate, NewInboxProcessor. by rewrite Hnew.
Qed.

(** X14: the three reading handlers never change the registry, the
    processors or the loops. The start handler changes them in one way
    only: for a key that is not registered it allocates one new processor,
    registers it under the key, marks it running and launches one loop,
    and it answers with the progress of that processor as its loop has
    advanced it when the progress is read; in every other case, errors and
    panics included, it leaves everything as it was. *)
Theorem handlers_change_nothing_else ran iter r w :
  (HandleGetInboxStatus r w).2 = w
  ∧ (HandleGetTopSenders iter r w).2 = w
  ∧ (HandleGetEmailStats r w).2 = w
  ∧ ((HandleStartProcessingInbox ran r w).2 = w
     ∨ ∃ tok userID,
         ParseToken r = inr tok ∧ userIDOf tok = Some userID
         ∧ Get userID w = None
         ∧ HandleStartProcessingInbox ran r w =
             (let q :=
                advance ran (set_isProcessing true (freshProcessor tok)) in
              ProgressJSON (TotalEmails (stats q)) (isProcessing q),
              launchedWorld ran userID tok w)).
Proof.
  split; [|split; [|split; [|apply HandleStart_world]]];
    unfold HandleGetInboxStatus, HandleGetTopSenders, HandleGetEmailStats,
      withUserID;
    (destruct (ParseToken r) as [e|tok]; [done|]);
    (destruct (userIDOf tok) as [userID|]; [|done]);
    unfold statusFor, topSendersFor, statsFor;
    (destruct (Get userID w) as [a|]; [|done]).
  - done.
  - destruct (heap w !! a) as [p|]; [|done].
    by destruct (GetTopSenders _ p 20).
  - by destruct (heap w !! a).
Qed.

(** X15: the answers for requests that cannot be served: 401 from every
    handler when the token does not parse, 404 from the three reading
    handlers when nothing is registered under the key, 500 from the start
    handler when the service cannot be created; none of them registers or
    launches anything. *)
Theorem handler_errors ran iter r w :
  (∀ e, ParseToken r = inl e →
        HandleStartProcessingInbox ran r w = (HttpError 401, w)
        ∧ HandleGetInboxStatus r w = (HttpError 401, w)
        ∧ HandleGetTopSenders iter r w = (HttpError 401, w)
        ∧ HandleGetEmailStats r w = (HttpError 401, w))
  ∧ (∀ tok userID,
       ParseToken r = inr tok → userIDOf tok = Some userID →
       Get userID w = None →
       HandleGetInboxStatus r w = (HttpError 404, w)
       ∧ HandleGetTopSenders iter r w = (HttpError 404, w)
       ∧ HandleGetEmailStats r w = (HttpError 404, w)
       ∧ (gmail_NewService tok = false →
          HandleStartProcessingInbox ran r w = (HttpError 500, w))).
Proof.
  unfold HandleGetInboxStatus, HandleGetTopSenders, HandleGetEmailStats,
    HandleStartProcessingInbox, withUserID.
  split.
  - intros e ->. by repeat split.
  - intros tok userID -> -> Hget.
    unfold statusFor, topSendersFor, statsFor, startFor, startCreate,
      NewInboxProcessor.
    rewrite Hget. repeat split. by intros ->.
Qed.

(** X16: every registered address stays allocated: the start handler, the
    removal of a key, the registration of an allocated processor and the
    moves of the loops keep the registry well formed. *)
Theorem wfWorld_kept ran acts r w userID a :
  wfWorld w →
  wfWorld (HandleStartProcessingInbox ran r w).2
  ∧ wfWorld (Remove userID w)
  ∧ ((a < length (heap w))%nat → wfWorld (Register userID a w))
  ∧ wfWorld (background acts w).
Proof.
  intros Hwf. repeat split.
  - destruct (HandleStart_world ran r w)
      as [->|(tok & u & _ & _ & _ & ->)]; [done|].
    intros v b. simpl. rewrite length_app. simpl.
    rewrite lookup_insert. case_decide.
    + intros [= <-]. lia.
    + intros Hb. pose proof (Hwf v b Hb). lia.
  - intros v b. simpl. rewrite lookup_delete. case_decide; [done|].
    apply Hwf.
  - intros Ha v b. simpl. rewrite lookup_insert. case_decide.
    + by intros [= <-].
    + apply Hwf.
  - intros v b. destruct (background_frame acts w) as (-> & _ & ->).
    apply Hwf.
Qed.

(** X17: the identity key is the first ten bytes of the access token and
    nothing else: after a run was started for one token, and whatever the
    loops have done since, a request with another token that begins with
    the same ten bytes is answered with the progress of the processor of
    that run, by the start handler and by the status handler alike; it
    changes nothing, and the processor keeps the first token. *)
Theorem key_is_shared ran ran' acts r1 r2 tok1 tok2 userID w :
  ParseToken r1 = inr tok1 → ParseToken r2 = inr tok2 →
  userIDOf tok1 = Some userID → userIDOf tok2 = Some userID →
  Get userID w = None → gmail_NewService tok1 = true →
  let w1 := background acts (HandleStartProcessingInbox ran r1 w).2 in
  ∃ p,
    heap w1 !! length (heap w) = Some p
    ∧ token p = tok1
    ∧ HandleStartProcessingInbox ran' r2 w1
      = (ProgressJSON (TotalEmails (stats p)) (isProcessing p), w1)
    ∧ HandleGetInboxStatus r2 w1
      = (ProgressJSON (TotalEmails (stats p)) (isProcessing p), w1).
Proof.
  intros Hp1 Hp2 Hid1 Hid2 Hget Hnew w1.
  assert ((HandleStartProcessingInbox ran r1 w).2
          = launchedWorld ran userID tok1 w) as Hw0.
  { unfold HandleStartProcessingInbox, withUserID, startFor.
    rewrite Hp1, Hid1, Hget. by rewrite startCreate_launches. }
  destruct (background_frame acts (HandleStartProcessingInbox ran r1 w).2)
    as (Hprocs & _ & _). fold w1 in Hprocs.
  assert (Get userID w1 = Some (length (heap w))) as Hget1.
  { unfold Get. rewrite Hprocs, Hw0. simpl. apply lookup_insert_eq. }
  destruct (background_token acts (HandleStartProcessingInbox ran r1 w).2
              (length (heap w))
              (advance ran (set_isProcessing true (freshProcessor tok1))))
    as (p & Hp & Htok).
  { rewrite Hw0. simpl. apply lookup_snoc. }
  fold w1 in Hp. exists p. split; [done|]. split.
  { rewrite Htok. by rewrite advance_token. }
  unfold HandleStartProcessingInbox, HandleGetInboxStatus, withUserID.
  rewrite Hp2, Hid2. unfold startFor, statusFor, progressOf.
  rewrite Hget1, Hp. done.
Qed.

(** X18: a run that has ended is not started again: for a registered key
    the start handler answers with the last progress and launches nothing,
    also when the processor is idle. Only after the key was removed does a
    start request create and launch a new processor, whose progress it
    answers with. *)
Theorem ended_run_is_not_restarted ran r w tok userID a p :
  ParseToken r = inr tok → userIDOf tok = Some userID →
  Get userID w = Some a → heap w !! a = Some p → isProcessing p = false →
  HandleStartProcessingInbox ran r w
    = (ProgressJSON (TotalEmails (stats p)) false, w)
  ∧ (gmail_NewService tok = true →
     let q := advance ran (set_isProcessing true (freshProcessor tok)) in
     HandleStartProcessingInbox ran r (Remove userID w)
       = (ProgressJSON (TotalEmails (stats q)) (isProcessing q),
          launchedWorld ran userID tok (Remove userID w))
     ∧ goroutines (HandleStartProcessingInbox ran r (Remove userID w)).2
       = goroutines w ++ [length (heap w)]).
Proof.
  intros Hparse Hid Hget Hheap Hidle.
  unfold HandleStartProcessingInbox, withUserID. rewrite Hparse, Hid.
  split.
  - unfold startFor, progressOf. rewrite Hget, Hheap.
    unfold GetProgress; simpl. by rewrite Hidle.
  - intros Hnew. unfold startFor.
    assert (Get userID (Remove userID w) = None) as ->
      by (unfold Get, Remove; simpl; apply lookup_delete_eq).
    by rewrite startCreate_launches.
Qed.

(** ** The launched loop and the handler that launched it *)

Lemma advance_Enters l : ∀ p, advance (map Enters l) p = runSections l p.
Proof.
  induction l as [|c l IH]; intros p; simpl; [done|].
  fold (advance (map Enters l) (enter c p)). by rewrite IH.
Qed.

Lemma advance_loopMoves sched script : ∀ k pt reqs log p,
  advance (loopMoves sched script k) p
  = proc (processInboxFrom sched script k pt reqs log p).
Proof.
  induction script as [|[|msgs next] script IH]; intros k pt reqs log p;
    [done..|].
  cbn [loopMoves processInboxFrom]. unfold advance.
  rewrite foldl_app. fold (advance (map Enters (sched k (pageSections msgs))) p).
  rewrite advance_Enters. cbn [foldl applyMove].
  destruct (String.eqb next ""); [done|].
  apply IH.
Qed.

(** X20: the moves of a launched loop are those of [processInbox]: once
    it has made all the moves for the answers [script], its processor is
    the one [processInbox] ends with. So the start handler that launches
    the loop answers with whatever the loop has reached when the progress
    is read: the progress at launch when the loop has not moved, the final
    progress when it has already ended. *)
Theorem launching_answer_follows_loop sched script r w tok userID :
  ParseToken r = inr tok → userIDOf tok = Some userID →
  Get userID w = None → gmail_NewService tok = true →
  let started := set_isProcessing true (freshProcessor tok) in
  let run := processInbox sched script started in
  advance (loopMoves sched script 0) started = proc run
  ∧ HandleStartProcessingInbox (loopMoves sched script 0) r w
    = (ProgressJSON (TotalEmails (stats (proc run)))
         (isProcessing (proc run)),
       launchedWorld (loopMoves sched script 0) userID tok w)
  ∧ (HandleStartProcessingInbox [] r w).1 = ProgressJSON 0 true
  ∧ (exited run = true →
     (HandleStartProcessingInbox (loopMoves sched script 0) r w).1
     = ProgressJSON (TotalEmails (stats (proc run))) false).
Proof.
  intros Hparse Hid Hget Hnew started run.
  assert (advance (loopMoves sched script 0) started = proc run) as Hadv
    by apply advance_loopMoves.
  assert (∀ ran,
            HandleStartProcessingInbox ran r w =
              (ProgressJSON (TotalEmails (stats (advance ran started)))
                 (isProcessing (advance ran started)),
               launchedWorld ran userID tok w)) as Hstart.
  { intros ran. unfold HandleStartProcessingInbox, withUserID, startFor.
    rewrite Hparse, Hid, Hget. by apply startCreate_launches. }
  split; [done|]. split; [by rewrite Hstart, Hadv|].
  split; [by rewrite Hstart|].
  intros Hexit. rewrite Hstart, Hadv. simpl. f_equal.
  destruct (processInboxFrom_requests sched script 0%nat "" [] [] started)
    as (_ & _ & Hflag).
  fold (processInbox sched script started) in Hflag. fold run in Hflag.
  by rewrite Hexit in Hflag.
Qed.

(** X21: the start handler looks the key up and registers the new
    processor in two steps. When two requests for a key both look it up
    before either registers, each creates and starts its own processor:
    two loops are launched, the registry keeps the processor registered
    last, and the other one stays allocated with its loop. *)
Theorem racing_starts_launch_two_loops ran1 ran2 tok1 tok2 userID w :
  Get userID w = None →
  gmail_NewService tok1 = true → gmail_NewService tok2 = true →
  let a := length (heap w) in
  let w1 := (startCreate ran1 userID tok1 w).2 in
  let w2 := (startCreate ran2 userID tok2 w1).2 in
  goroutines w2 = goroutines w ++ [a; S a]
  ∧ Get userID w2 = Some (S a)
  ∧ token <$> (heap w2 !! a) = Some tok1
  ∧ token <$> (heap w2 !! S a) = Some tok2.
Proof.
  intros Hget Hnew1 Hnew2 a w1 w2. subst w2 w1.
  rewrite !startCreate_launches by done.
  unfold launchedWorld; simpl. rewrite length_app, Nat.add_1_r. fold a.
  repeat split.
  - by rewrite <- app_assoc.
  - unfold Get; simpl. apply lookup_insert_eq.
  - rewrite lookup_app_l by (rewrite length_app; simpl; lia).
    subst a. rewrite lookup_snoc. simpl. by rewrite advance_token.
  - replace (S a) with (length (heap w ++
        [advance ran1 (set_isProcessing true (freshProcessor tok1))]))
      by (rewrite length_app; simpl; lia).
    rewrite lookup_snoc. simpl. by rewrite advance_token.
Qed.

(** X19: the top-senders handler never answers with more than twenty
    senders, and those it answers with are in non-increasing order of
    count. *)
Theorem top_senders_at_most_twenty iter r w l w' :
  HandleGetTopSenders iter r w = (TopSendersJSON l, w') →
  (length l ≤ 20)%nat ∧ nonIncreasing l.
Proof.
  unfold HandleGetTopSenders, withUserID.
  destruct (ParseToken r) as [e|tok]; [done|].
  destruct (userIDOf tok) as [userID|]; [|done].
  unfold topSendersFor.
  destruct (Get userID w) as [a|]; [|done].
  destruct (heap w !! a) as [p|]; [|done].
  unfold GetTopSenders. set (senders := sortByCount _).
  assert (∀ m, nonIncreasing (take m senders)) as Hsorted.
  { intros m i k x y Hik Hx Hy.
    apply lookup_take_Some in Hx as [Hx _].
    apply lookup_take_Some in Hy as [Hy _].
    subst senders. by eapply sortByCount_sorted. }
  destruct (Z.ltb_spec (Z.of_nat (length senders)) 20) as [Hlt|Hge].
  - destruct (Z.ltb_spec (Z.of_nat (length senders)) 0); [done|].
    intros [= <- _]. split; [rewrite length_take; lia | apply Hsorted].
  - simpl. intros [= <- _].
    split; [rewrite length_take; lia | apply Hsorted].
Qed.


End Engine.

(** * Part III: the properties on concrete inputs *)

(** C4 fails as the specification words it: a value with a ['>'] and no
    ['<'] is cut at the ['>'] instead of being returned whole. *)
Lemma extractEmailAddress_not_as_specified :
  extractEmailAddress "a@b.com>" = "a@b.com"
  ∧ AsSpecified.address "a@b.com>" = "a@b.com>"
  ∧ extractEmailAddress "a@b.com>" ≠ AsSpecified.address "a@b.com>".
Proof. repeat split. discriminate. Qed.

Lemma backwards_fair : fairScheduler Demo.backwards.
Proof. intros k l. symmetry. apply Permutation_rev. Qed.


Lemma first_page_continuing : Forall continuing (take 1 Demo.mailbox).
Proof. repeat constructor. simpl. discriminate. Qed.



Lemma start_once_witness :
  let ran := loopMoves Demo.time_Parse inOrder (take 1 Demo.mailbox) 0 in
  let acts := map (pair 0%nat)
                [Enters (AppendEmail (extractMetadata Demo.time_Parse Demo.m3))]
  in
  let first :=
    HandleStartProcessingInbox Demo.time_Format Demo.json_Unmarshal
      Demo.gmail_NewService ran Demo.request emptyWorld in
  let later := background Demo.time_Format acts first.2 in
  let second :=
    HandleStartProcessingInbox Demo.time_Format Demo.json_Unmarshal
      Demo.gmail_NewService [] Demo.request later in
  first.1 = ProgressJSON 2 true
  ∧ (∃ p, heap later !! 0%nat = Some p ∧ token p = Demo.tok
          ∧ second.1 = ProgressJSON (TotalEmails (stats p)) (isProcessing p))
  ∧ second.2 = later
  ∧ goroutines second.2 = [0%nat]
  ∧ (∀ p, heap later !! 0%nat = Some p → isProcessing p = true →
          HandleStartProcessingInbox Demo.time_Format Demo.json_Unmarshal
            Demo.gmail_NewService [] Demo.request later
          = (ProgressJSON (TotalEmails (stats p)) true, later)).
Proof.
  intros ran acts first later second.
  destruct (start_once Demo.time_Format Demo.json_Unmarshal
              Demo.gmail_NewService)
    as (_ & _ & _ & Hrunning & Htwice).
  destruct (Htwice ran [] acts Demo.request emptyWorld Demo.tok "ya29.a0AfH"
              eq_refl eq_refl eq_refl eq_refl)
    as (H1 & H2 & H3 & H4 & H5 & H6).
  split; [exact H1|]. split; [exact H4|]. split; [exact H5|].
  split; [exact H6|].
  intros p Hp Hrun.
  exact (Hrunning [] Demo.request later Demo.tok "ya29.a0AfH" 0%nat p
           eq_refl eq_refl H3 Hp Hrun).
Defined.

Lemma GetTopSenders_top_witness :
  let p :=
    proc (processInbox Demo.time_Parse Demo.time_Format Demo.backwards
            Demo.mailbox Demo.started) in
  let iter := map_to_list (FromCount (stats p)) in
  0 ≤ 1
  ∧ rangeOf (FromCount (stats p)) iter
  ∧ ∃ result,
      GetTopSenders iter p 1 = Some result
      ∧ length result = Nat.min 1 (size (FromCount (stats p)))
      ∧ ∀ a, a ∈ result → FromCount (stats p) !! Email a = Some (Count a).
Proof.
  intros p iter.
  assert (0 ≤ 1) as Hn by lia.
  assert (rangeOf (FromCount (stats p)) iter) as Hrange
    by (unfold rangeOf; reflexivity).
  split; [exact Hn|]. split; [exact Hrange|].
  destruct (GetTopSenders_top Demo.time_Format iter p 1 Hn Hrange)
    as (result & rest & Hres & Hlen & _ & _ & _ & _ & Hentries & _).
  exists result. split; [exact Hres|]. split; [exact Hlen|].
  intros a Ha. exact (proj1 (Hentries a Ha)).
Defined.

Lemma updateStats_contribution_witness :
  let s' := updateStats Demo.time_Format Demo.metadata NewEmailStats in
  (∀ k, getZ (FromCount s') k =
          getZ (FromCount NewEmailStats) k
          + if decide (k = "ann@example.com") then 1 else 0)
  ∧ (∀ k, getZ (ToCount s') k =
            getZ (ToCount NewEmailStats) k
            + Z.of_nat (occ k (To Demo.metadata))).
Proof.
  intros s'.
  destruct (updateStats_contribution Demo.time_Format Demo.metadata
              NewEmailStats) as (H1 & _ & H3 & _).
  - vm_compute. split; discriminate.
  - vm_compute. split; discriminate.
  - repeat constructor; vm_compute; discriminate.
  - intros _. vm_compute. split; discriminate.
  - split; [exact H1 | exact H3].
Defined.

Lemma listing_failure_aborts_run_witness :
  Forall continuing (take 1 Demo.mailbox)
  ∧ (let before := processInbox Demo.time_Parse Demo.time_Format inOrder
                     (take 1 Demo.mailbox) Demo.started in
     let r := processInbox Demo.time_Parse Demo.time_Format inOrder
                (take 1 Demo.mailbox ++ ListFailed :: drop 1 Demo.mailbox)
                Demo.started in
     exited r = true ∧ isProcessing (proc r) = false
     ∧ stats (proc r) = stats (proc before)
     ∧ length (requests r) = 2%nat).
Proof.
  split; [exact first_page_continuing|].
  destruct (listing_failure_aborts_run Demo.time_Parse Demo.time_Format
              inOrder (take 1 Demo.mailbox) (drop 1 Demo.mailbox)
              Demo.started first_page_continuing)
    as (_ & H2 & H3 & H4 & _ & _ & _ & H8).
  split; [exact H2|]. split; [exact H3|]. split; [exact H4 | exact H8].
Defined.

Lemma empty_next_token_ends_run_witness :
  Forall continuing (take 1 Demo.mailbox)
  ∧ (let r := processInbox Demo.time_Parse Demo.time_Format inOrder
                (take 1 Demo.mailbox
                 ++ ListPage [("m3", Some Demo.m3)] ""
                 :: [ListPage [("m1", Some Demo.m1)] ""])
                Demo.started in
     exited r = true ∧ isProcessing (proc r) = false
     ∧ length (requests r) = 2%nat).
Proof.
  split; [exact first_page_continuing|].
  destruct (empty_next_token_ends_run Demo.time_Parse Demo.time_Format
              inOrder (take 1 Demo.mailbox) [("m3", Some Demo.m3)]
              [ListPage [("m1", Some Demo.m1)] ""]
              Demo.started first_page_continuing)
    as (H1 & H2 & _ & _ & _ & H6).
  split; [exact H1|]. split; [exact H2 | exact H6].
Defined.

Lemma date_formats_in_order_witness :
  parseDate Demo.time_Parse "Mon, 2 Jan 2006 15:04:05 -0700" zeroTime
    = Demo.instant
  ∧ parseDate Demo.time_Parse "yesterday" zeroTime = zeroTime
  ∧ (let metadata := extractMetadata Demo.time_Parse Demo.m3 in
     let s' := updateStats Demo.time_Format metadata NewEmailStats in
     Date metadata = zeroTime ∧ DateCount s' = DateCount NewEmailStats
     ∧ getZ (FromCount s') (From metadata) =
         GoInt.add (getZ (FromCount NewEmailStats) (From metadata)) 1)
  ∧ (let metadata := extractMetadata Demo.time_Parse Demo.m2 in
     let s' := updateStats Demo.time_Format metadata NewEmailStats in
     Date metadata = Demo.instant
     ∧ getZ (DateCount s') "2006-01-02" =
         GoInt.add (getZ (DateCount NewEmailStats) "2006-01-02") 1).
Proof.
  destruct (date_formats_in_order Demo.time_Parse Demo.time_Format)
    as (Hfirst & Hnone & Hmsg & Hparsed).
  split; [|split; [|split]].
  - apply (Hfirst "Mon, 2 Jan 2006 15:04:05 -0700" zeroTime
             [RFC1123Z; RFC1123] "Mon, 2 Jan 2006 15:04:05 -0700"
             ["Mon, 2 Jan 2006 15:04:05 -0700 (MST)"]).
    + reflexivity.
    + repeat constructor.
    + reflexivity.
  - apply Hnone. repeat constructor.
  - destruct (Hmsg Demo.m3 NewEmailStats) as (H1 & H2 & H3 & _).
    + repeat constructor; intros _; repeat constructor.
    + split; [exact H1|]. split; [exact H2 | exact H3].
  - destruct (Hparsed Demo.m2 NewEmailStats
                [ Demo.header "From" "ann@example.com";
                  Demo.header "To" "Bob <bob@example.com>";
                  Demo.header "To" "carl@example.com" ]
                (Demo.header "Date" "Mon, 2 Jan 2006 15:04:05 -0700") []
                [RFC1123Z; RFC1123] "Mon, 2 Jan 2006 15:04:05 -0700"
                ["Mon, 2 Jan 2006 15:04:05 -0700 (MST)"] Demo.instant)
      as (H1 & H2 & _).
    + reflexivity.
    + reflexivity.
    + reflexivity.
    + repeat constructor.
    + reflexivity.
    + constructor.
    + split; [exact H1 | exact (H2 eq_refl)].
Defined.

Lemma identity_key_needs_ten_bytes_witness :
  HandleGetInboxStatus Demo.json_Unmarshal Demo.shortRequest emptyWorld
    = (Panic, emptyWorld)
  ∧ HandleStartProcessingInbox Demo.time_Format Demo.json_Unmarshal
      Demo.gmail_NewService [] Demo.shortRequest emptyWorld
    = (Panic, emptyWorld)
  ∧ HandleGetInboxStatus Demo.json_Unmarshal Demo.request emptyWorld
      = statusFor "ya29.a0AfH" emptyWorld.
Proof.
  destruct (identity_key_needs_ten_bytes Demo.time_Format
              Demo.json_Unmarshal Demo.gmail_NewService [] Demo.shortRequest
              {| AccessToken := "abc"; TokenType := "Bearer";
                 RefreshToken := EmptyString |}
              emptyWorld map_to_list eq_refl) as [Hshort _].
  destruct (Hshort ltac:(simpl; lia)) as (H1 & H2 & _).
  destruct (identity_key_needs_ten_bytes Demo.time_Format
              Demo.json_Unmarshal Demo.gmail_NewService [] Demo.request
              Demo.tok emptyWorld map_to_list eq_refl) as [_ Hlong].
  destruct (Hlong ltac:(simpl; lia)) as (_ & _ & _ & H4 & _).
  split; [exact H2|]. split; [exact H1 | exact H4].
Defined.

(** The scenario of the specification: three messages on two pages. At the
    end of the run the total is three, the senders are counted, and the top
    sender is the one with two messages. *)
Lemma scenario_two_pages :
  let r := processInbox Demo.time_Parse Demo.time_Format Demo.backwards
             Demo.mailbox Demo.started in
  exited r = true
  ∧ GetProgress (proc r) = (3, false)
  ∧ requests r = [EmptyString; "p2"]
  ∧ map_to_list (FromCount (stats (proc r))) =
      [("carl@example.com", 1); ("ann@example.com", 2)]
  ∧ GetTopSenders (map_to_list (FromCount (stats (proc r)))) (proc r) 1 =
      Some [{| Email := "ann@example.com"; Count := 2; Size := 2000 |}].
Proof. vm_compute. repeat split. Qed.

(** ** The further properties on concrete inputs *)

Lemma emptyWorld_wf : wfWorld emptyWorld.
Proof. intros u a H. simpl in H. by rewrite lookup_empty in H. Qed.

Lemma senders_nonIncreasing : nonIncreasing Demo2.senders.
Proof.
  intros i k a b Hik Ha Hb.
  destruct i as [|[|[|i]]]; destruct k as [|[|[|k]]];
    simpl in Ha, Hb; simplify_eq; simpl; lia.
Qed.

Lemma ParseToken_bearer_witness :
  ParseToken Demo.json_Unmarshal {| Authorization := "ya29.a0AfH6SMBx" |}
    = inr Demo.tok
  ∧ ParseToken Demo.json_Unmarshal Demo.request = inr Demo.tok.
Proof.
  destruct (ParseToken_bearer Demo.json_Unmarshal) as (_ & Hcut & _ & Hwhole).
  split.
  - exact (Hwhole "y"%char "a29.a0AfH6SMBx" eq_refl).
  - exact (Hcut "y"%char "a29.a0AfH6SMBx").
Defined.

Lemma GetTopSenders_prefix_witness :
  0 ≤ 1 ∧ 1 ≤ 2
  ∧ ∃ r r',
      GetTopSenders (map_to_list (FromCount (stats Demo2.idle))) Demo2.idle 1
        = Some r
      ∧ GetTopSenders (map_to_list (FromCount (stats Demo2.idle)))
          Demo2.idle 2 = Some r'
      ∧ r = take 1 r'.
Proof.
  assert (0 ≤ 1) as H0 by lia. assert (1 ≤ 2) as H1 by lia.
  split; [exact H0|]. split; [exact H1|].
  exact (GetTopSenders_prefix
           (map_to_list (FromCount (stats Demo2.idle))) Demo2.idle 1 2 H0 H1).
Defined.

Lemma sortByCount_sorted_unchanged_witness :
  nonIncreasing Demo2.senders ∧ sortByCount Demo2.senders = Demo2.senders.
Proof.
  split; [exact senders_nonIncreasing|].
  exact (sortByCount_sorted_unchanged Demo2.senders senders_nonIncreasing).
Defined.

Lemma extractEmailAddress_brackets_witness :
  extractEmailAddress "Ann <ann@example.com> (work)" = "ann@example.com"
  ∧ extractEmailAddress "Ann <>" = "Ann <>".
Proof.
  split.
  - exact (extractEmailAddress_brackets "Ann " "ann@example.com" " (work)"
             eq_refl eq_refl).
  - exact (extractEmailAddress_brackets "Ann " EmptyString EmptyString
             eq_refl eq_refl).
Defined.

Lemma last_parsed_Date_wins_witness :
  Date (extractMetadata Demo.time_Parse Demo2.twoDates) = Demo.instant.
Proof.
  apply (last_parsed_Date_wins Demo.time_Parse Demo2.twoDates
           [Demo.header "From" "ann@example.com"]
           (Demo.header "Date" "Mon, 2 Jan 2006 15:04:05 -0700")
           [Demo.header "Date" "yesterday"]
           [RFC1123Z; RFC1123] "Mon, 2 Jan 2006 15:04:05 -0700"
           ["Mon, 2 Jan 2006 15:04:05 -0700 (MST)"]).
  - reflexivity.
  - reflexivity.
  - reflexivity.
  - repeat constructor.
  - reflexivity.
  - repeat constructor.
Defined.

Lemma emails_follow_records_witness :
  fairScheduler Demo.backwards
  ∧ (let r := processInbox Demo.time_Parse Demo.time_Format Demo.backwards
                Demo.flaky Demo.started in
     Permutation (emails (proc r))
       (emails Demo.started ++ recorded (sections r))).
Proof.
  split; [exact backwards_fair|].
  exact (proj1 (proj2 (emails_follow_records Demo.time_Parse Demo.time_Format
                         Demo.backwards Demo.flaky Demo.started
                         backwards_fair))).
Defined.

Lemma total_counts_listed_witness :
  GoInt.inRange (TotalEmails (stats Demo.started))
  ∧ fairScheduler Demo.backwards
  ∧ (let r := processInbox Demo.time_Parse Demo.time_Format Demo.backwards
                Demo.flaky Demo.started in
     TotalEmails (stats (proc r)) = 3
     ∧ length (recorded (sections r)) = 2%nat).
Proof.
  assert (GoInt.inRange (TotalEmails (stats Demo.started))) as Hrange
    by (vm_compute; split; discriminate).
  split; [exact Hrange|]. split; [exact backwards_fair|].
  destruct (total_counts_listed Demo.time_Parse Demo.time_Format
              Demo.backwards Demo.flaky Demo.started Hrange backwards_fair)
    as (Htotal & Hrec & _).
  split; [exact Htotal | exact Hrec].
Defined.

Lemma second_run_accumulates_witness :
  exited (processInbox Demo.time_Parse Demo.time_Format inOrder Demo.mailbox
            Demo.started) = true
  ∧ (let p1 := proc (processInbox Demo.time_Parse Demo.time_Format inOrder
                       Demo.mailbox Demo.started) in
     let r2 := processInbox Demo.time_Parse Demo.time_Format inOrder
                 Demo.mailbox (set_isProcessing true p1) in
     StartProcessing p1 = (None, set_isProcessing true p1, true)
     ∧ emails (proc r2) = emails p1 ++ appended (sections r2)).
Proof.
  assert (exited (processInbox Demo.time_Parse Demo.time_Format inOrder
                    Demo.mailbox Demo.started) = true) as Hexit
    by reflexivity.
  split; [exact Hexit|].
  destruct (second_run_accumulates Demo.time_Parse Demo.time_Format inOrder
              Demo.mailbox Demo.mailbox Demo.started Hexit)
    as (Hstart & Hemails & _).
  split; [exact Hstart | exact Hemails].
Defined.

Lemma senders_have_sizes_witness :
  dom (FromCount (stats Demo.started)) = dom (FromSize (stats Demo.started))
  ∧ (let r := processInbox Demo.time_Parse Demo.time_Format inOrder
                Demo.mailbox Demo.started in
     dom (FromCount (stats (proc r))) = dom (FromSize (stats (proc r)))).
Proof.
  assert (dom (FromCount (stats Demo.started))
          = dom (FromSize (stats Demo.started))) as Hdom by reflexivity.
  split; [exact Hdom|].
  exact (senders_have_sizes Demo.time_Parse Demo.time_Format inOrder
           Demo.mailbox Demo.started Hdom).
Defined.

Lemma handler_errors_witness :
  HandleStartProcessingInbox Demo.time_Format Demo.json_Unmarshal
    Demo.gmail_NewService [] Demo2.noHeader emptyWorld
  = (HttpError 401, emptyWorld)
  ∧ HandleGetInboxStatus Demo.json_Unmarshal Demo.request emptyWorld
      = (HttpError 404, emptyWorld)
  ∧ HandleStartProcessingInbox Demo.time_Format Demo.json_Unmarshal
      Demo2.gmail_NewService [] Demo.request emptyWorld
    = (HttpError 500, emptyWorld).
Proof.
  destruct (handler_errors Demo.time_Format Demo.json_Unmarshal
              Demo.gmail_NewService [] map_to_list Demo2.noHeader
              emptyWorld) as [H401 _].
  destruct (H401 "authorization header not provided" eq_refl)
    as (Hstart & _).
  destruct (handler_errors Demo.time_Format Demo.json_Unmarshal
              Demo2.gmail_NewService [] map_to_list Demo.request
              emptyWorld) as [_ Hmissing].
  destruct (Hmissing Demo.tok "ya29.a0AfH" eq_refl eq_refl eq_refl)
    as (Hstatus & _ & _ & H500).
  split; [exact Hstart|]. split; [exact Hstatus | exact (H500 eq_refl)].
Defined.

Lemma wfWorld_kept_witness :
  wfWorld emptyWorld
  ∧ wfWorld
      (HandleStartProcessingInbox Demo.time_Format Demo.json_Unmarshal
         Demo.gmail_NewService [Leaves] Demo.request emptyWorld).2.
Proof.
  split; [exact emptyWorld_wf|].
  exact (proj1 (wfWorld_kept Demo.time_Format Demo.json_Unmarshal
                  Demo.gmail_NewService [Leaves] [] Demo.request emptyWorld
                  "ya29.a0AfH" 0%nat emptyWorld_wf)).
Defined.

Lemma key_is_shared_witness :
  let w1 :=
    background Demo.time_Format [(0%nat, Leaves)]
      (HandleStartProcessingInbox Demo.time_Format Demo.json_Unmarshal
         Demo.gmail_NewService [] Demo.request emptyWorld).2 in
  ∃ p,
    heap w1 !! 0%nat = Some p
    ∧ token p = Demo.tok
    ∧ HandleStartProcessingInbox Demo.time_Format Demo.json_Unmarshal
        Demo.gmail_NewService [] Demo2.request w1
      = (ProgressJSON (TotalEmails (stats p)) (isProcessing p), w1).
Proof.
  intros w1.
  destruct (key_is_shared Demo.time_Format Demo.json_Unmarshal
              Demo.gmail_NewService [] [] [(0%nat, Leaves)]
              Demo.request Demo2.request Demo.tok Demo2.tok "ya29.a0AfH"
              emptyWorld eq_refl eq_refl eq_refl eq_refl eq_refl eq_refl)
    as (p & Hp & Htoken & Hstart & _).
  exists p. split; [exact Hp|]. split; [exact Htoken | exact Hstart].
Defined.

Lemma ended_run_is_not_restarted_witness :
  HandleStartProcessingInbox Demo.time_Format Demo.json_Unmarshal
    Demo.gmail_NewService [] Demo.request Demo2.world
  = (ProgressJSON 3 false, Demo2.world)
  ∧ goroutines
      (HandleStartProcessingInbox Demo.time_Format Demo.json_Unmarshal
         Demo.gmail_NewService [] Demo.request
         (Remove "ya29.a0AfH" Demo2.world)).2
    = [0%nat; 1%nat].
Proof.
  destruct (ended_run_is_not_restarted Demo.time_Format Demo.json_Unmarshal
              Demo.gmail_NewService [] Demo.request Demo2.world Demo.tok
              "ya29.a0AfH" 0%nat Demo2.idle
              eq_refl eq_refl eq_refl eq_refl eq_refl)
    as (Hsame & Hnew).
  split; [exact Hsame | exact (proj2 (Hnew eq_refl))].
Defined.

Lemma top_senders_at_most_twenty_witness :
  HandleGetTopSenders Demo.json_Unmarshal map_to_list Demo.request
    Demo2.world
  = (TopSendersJSON
       [ {| Email := "ann@example.com"; Count := 2; Size := 2000 |};
         {| Email := "carl@example.com"; Count := 1; Size := 50 |} ],
     Demo2.world)
  ∧ (2 ≤ 20)%nat.
Proof.
  assert (HandleGetTopSenders Demo.json_Unmarshal map_to_list Demo.request
            Demo2.world
          = (TopSendersJSON
               [ {| Email := "ann@example.com"; Count := 2; Size := 2000 |};
                 {| Email := "carl@example.com"; Count := 1; Size := 50 |} ],
             Demo2.world)) as Hrun by (vm_compute; reflexivity).
  split; [exact Hrun|].
  exact (proj1 (top_senders_at_most_twenty Demo.json_Unmarshal map_to_list
                  Demo.request Demo2.world _ _ Hrun)).
Defined.

Lemma launching_answer_follows_loop_witness :
  (HandleStartProcessingInbox Demo.time_Format Demo.json_Unmarshal
     Demo.gmail_NewService
     (loopMoves Demo.time_Parse inOrder [ListFailed] 0)
     Demo.request emptyWorld).1 = ProgressJSON 0 false
  ∧ (HandleStartProcessingInbox Demo.time_Format Demo.json_Unmarshal
       Demo.gmail_NewService
       (loopMoves Demo.time_Parse Demo.backwards Demo.mailbox 0)
       Demo.request emptyWorld).1 = ProgressJSON 3 false.
Proof.
  split.
  - exact (proj2 (proj2 (proj2
             (launching_answer_follows_loop Demo.time_Parse Demo.time_Format
                Demo.json_Unmarshal Demo.gmail_NewService inOrder
                [ListFailed] Demo.request emptyWorld Demo.tok "ya29.a0AfH"
                eq_refl eq_refl eq_refl eq_refl))) eq_refl).
  - exact (proj2 (proj2 (proj2
             (launching_answer_follows_loop Demo.time_Parse Demo.time_Format
                Demo.json_Unmarshal Demo.gmail_NewService Demo.backwards
                Demo.mailbox Demo.request emptyWorld Demo.tok "ya29.a0AfH"
                eq_refl eq_refl eq_refl eq_refl))) eq_refl).
Defined.

Lemma racing_starts_launch_two_loops_witness :
  let w1 :=
    (startCreate Demo.time_Format Demo.gmail_NewService [] "ya29.a0AfH"
       Demo.tok emptyWorld).2 in
  let w2 :=
    (startCreate Demo.time_Format Demo.gmail_NewService [] "ya29.a0AfH"
       Demo2.tok w1).2 in
  goroutines w2 = [0%nat; 1%nat] ∧ Get "ya29.a0AfH" w2 = Some 1%nat.
Proof.
  intros w1 w2.
  destruct (racing_starts_launch_two_loops Demo.time_Format
              Demo.gmail_NewService [] [] Demo.tok Demo2.tok "ya29.a0AfH"
              emptyWorld eq_refl eq_refl eq_refl) as (Hgo & Hget & _).
  split; [exact Hgo | exact Hget].
Defined.

(** C5 fails as the specification words it: a [Date] header that parses to
    the first instant of year 1 gives a record whose timestamp parsed and
    which adds to no day count, while it is counted for its sender; and two
    records of the largest size make the byte total of their sender wrap
    around. *)
Lemma parsed_zero_instant_adds_no_day :
  Demo3.time_Parse RFC1123Z "Mon, 01 Jan 0001 00:00:00 +0000"
    = Some zeroTime
  ∧ (let metadata := extractMetadata Demo3.time_Parse Demo3.firstInstant in
     let s' := updateStats Demo.time_Format metadata NewEmailStats in
     From metadata = "z@x.org"
     ∧ getZ (FromCount s') "z@x.org" = 1
     ∧ DateCount s' = DateCount NewEmailStats)
  ∧ (let s2 := updateStats Demo.time_Format Demo3.huge
                 (updateStats Demo.time_Format Demo3.huge NewEmailStats) in
     getZ (FromSize s2) "big@example.com" = -2
     ∧ getZ (FromSize s2) "big@example.com"
       ≠ SizeEstimate Demo3.huge + SizeEstimate Demo3.huge).
Proof. vm_compute. repeat split; discriminate. Qed.
